(** * snipsync: the marker-driven extraction and splice engine of [src/Sync.ts]

    A shallow embedding of the snippet extractor, the snippet formatter and
    the target splicer/clearer, followed by the properties proved about them.

    Conventions of the embedding.
    - A JavaScript string is a [string]: a sequence of 8-bit code units
      (the Latin-1 range of UTF-16 code units).
    - A JavaScript array of lines is a [list string].
    - An operation that may throw returns a [result]; the only exceptions
      the engine can raise are the two [TypeError]s of [exn].
    - The splice loop iterates over an array it mutates and need not
      terminate, so it takes fuel and returns an [option]: [None] means the
      fuel ran out, never that the code returned. *)

From Stdlib Require Import String Ascii List ZArith Lia Bool Arith.
Import ListNotations.
Local Open Scope string_scope.
Local Open Scope list_scope.

(** ** Exceptions and results *)

(** The two ways the engine throws: indexing [null] (the result of a failed
    [String.prototype.match]) and reading a property of [undefined] (an
    array read past its end).  A JavaScript [TypeError] carries a fixed
    message and nothing of the data being processed. *)
Inductive exn : Type :=
| TypeError_null_index        (* null[0] in extractID *)
| TypeError_undefined_lines.  (* undefined.lines in extractSnippets *)

Inductive result (A : Type) : Type :=
| Ok (a : A)
| Throw (e : exn).
Arguments Ok {A} a.
Arguments Throw {A} e.

Definition bind {A B : Type} (r : result A) (f : A -> result B) : result B :=
  match r with
  | Ok a => f a
  | Throw e => Throw e
  end.

Notation "x <- r ;; k" := (bind r (fun x => k))
  (at level 61, r at next level, right associativity).

(** ** JavaScript string and array primitives used by the engine *)

Module JS.

(** [line.includes(needle)]: substring containment, not anchored. *)
Fixpoint includes (line needle : string) : bool :=
  String.prefix needle line
  || match line with
     | EmptyString => false
     | String _ rest => includes rest needle
     end.

(** [s.split(sep)] for a one-character separator. *)
Fixpoint split (sep : ascii) (s : string) : list string :=
  match s with
  | EmptyString => [EmptyString]
  | String c rest =>
      if Ascii.eqb c sep then EmptyString :: split sep rest
      else match split sep rest with
           | [] => [String c EmptyString]
           | h :: t => String c h :: t
           end
  end.

(** [parts.join(sep)]. *)
Definition join (sep : string) (parts : list string) : string :=
  String.concat sep parts.

(** [arr.slice(1, arr.length)]. *)
Definition slice1 {A : Type} (arr : list A) : list A := tl arr.

(** White space in the sense of [\s] and of [trim], restricted to code
    units below 256: TAB, LF, VT, FF, CR, SPACE and NBSP. *)
Definition isSpace (c : ascii) : bool :=
  let n := nat_of_ascii c in
  (((9 <=? n) && (n <=? 13)) || (n =? 32) || (n =? 160))%nat.

(** A word character in the sense of [\w]: [A-Za-z0-9_]. *)
Definition isWord (c : ascii) : bool :=
  let n := nat_of_ascii c in
  (((48 <=? n) && (n <=? 57)) || ((65 <=? n) && (n <=? 90))
   || ((97 <=? n) && (n <=? 122)) || (n =? 95))%nat.

Fixpoint trimStart (s : string) : string :=
  match s with
  | String c rest => if isSpace c then trimStart rest else s
  | EmptyString => EmptyString
  end.

Fixpoint trimEnd (s : string) : string :=
  match s with
  | EmptyString => EmptyString
  | String c rest =>
      match trimEnd rest with
      | EmptyString => if isSpace c then EmptyString else String c EmptyString
      | r => String c r
      end
  end.

(** [s.trim()]. *)
Definition trim (s : string) : string := trimEnd (trimStart s).

(** [arr.splice(start, deleteCount, ...items)] with the clamping of
    ECMAScript: a negative [start] counts from the end, [start] is clamped
    to [0, length], and [deleteCount] to [0, length - start]. *)
Definition splice {A : Type} (arr : list A) (start deleteCount : Z)
    (items : list A) : list A :=
  let len := Z.of_nat (length arr) in
  let actualStart :=
    if (start <? 0)%Z then Z.max (len + start) 0 else Z.min start len in
  let actualDeleteCount :=
    Z.min (Z.max deleteCount 0) (len - actualStart) in
  firstn (Z.to_nat actualStart) arr
  ++ items
  ++ skipn (Z.to_nat (actualStart + actualDeleteCount)) arr.

End JS.

(** ** A backtracking matcher for the regular expression of [extractID] *)

Module Regex.

(** The fragment of ECMAScript patterns that [extractID] uses: a character
    class, concatenation, the greedy [+] quantifier and the word-boundary
    assertion.  Capture groups do not affect which text is matched, so a
    group is its body. *)
Inductive regex : Type :=
| Class (p : ascii -> bool)
| Seq (r1 r2 : regex)
| Plus (r : regex)
| WordBoundary.

(** A position in the subject: the character before it, if any, and the
    text from it on. *)
Definition pos : Type := option ascii * string.

Definition isWordAt (c : option ascii) : bool :=
  match c with
  | Some a => JS.isWord a
  | None => false
  end.

Definition nextChar (s : string) : option ascii :=
  match s with
  | String c _ => Some c
  | EmptyString => None
  end.

(** [rmatch r fuel p k]: match [r] at [p], then hand the position reached
    to the continuation [k]; alternatives are tried in the priority order
    of a backtracking engine (greedy [+] tries one more iteration before
    it tries the continuation).  [fuel] bounds the iterations of a [+];
    an iteration that consumes nothing is not repeated. *)
Fixpoint rmatch {A : Type} (r : regex) (fuel : nat) (p : pos)
    (k : pos -> option A) {struct r} : option A :=
  match r with
  | Class c =>
      match snd p with
      | String a rest => if c a then k (Some a, rest) else None
      | EmptyString => None
      end
  | Seq r1 r2 => rmatch r1 fuel p (fun p' => rmatch r2 fuel p' k)
  | Plus r0 =>
      (fix iter (n : nat) (p : pos) {struct n} : option A :=
         match n with
         | O => None
         | S n' =>
             rmatch r0 fuel p (fun p' =>
               let again :=
                 if (String.length (snd p') <? String.length (snd p))%nat
                 then iter n' p' else None in
               match again with
               | Some x => Some x
               | None => k p'
               end)
         end) fuel p
  | WordBoundary =>
      if xorb (isWordAt (fst p)) (isWordAt (nextChar (snd p)))
      then k p else None
  end.

Definition lit (c : ascii) : regex := Class (Ascii.eqb c).

Fixpoint lits (s : string) : regex -> regex :=
  match s with
  | EmptyString => fun r => r
  | String c rest => fun r => Seq (lit c) (lits rest r)
  end.

(** Every position of a subject, from its start to its end. *)
Fixpoint positions (prev : option ascii) (s : string) : list pos :=
  (prev, s) ::
  match s with
  | EmptyString => []
  | String c rest => positions (Some c) rest
  end.

(** The text matched when [r] matches at [p], if it does. *)
Definition matchAt (r : regex) (p : pos) : option string :=
  let fuel := S (String.length (snd p)) in
  match rmatch r fuel p (fun p' => Some p') with
  | Some p' =>
      Some (substring 0 (String.length (snd p) - String.length (snd p'))
                      (snd p))
  | None => None
  end.

(** A lookbehind [(?<=r)] of fixed width [w] holds at position [i] of
    [line] when [r] matches from position [i - w] and ends exactly at
    [i]. *)
Definition lookbehindAt (r : regex) (w : nat) (all : list pos) (i : nat)
    (p : pos) : bool :=
  if (i <? w)%nat then false
  else match nth_error all (i - w) with
       | Some q =>
           match rmatch r (S (String.length (snd q))) q
                   (fun q' =>
                      if (String.length (snd q') =? String.length (snd p))%nat
                      then Some tt else None) with
           | Some _ => true
           | None => false
           end
       | None => false
       end.

(** The first match of [(?<=lb)body] in [line], scanning start positions
    from the left: element [0] of the array [line.match(/.../g)] returns,
    or [None] when [match] returns [null]. *)
Fixpoint firstMatchFrom (lb : regex) (w : nat) (body : regex)
    (all : list pos) (i : nat) (ps : list pos) : option string :=
  match ps with
  | [] => None
  | p :: ps' =>
      match (if lookbehindAt lb w all i p then matchAt body p else None) with
      | Some m => Some m
      | None => firstMatchFrom lb w body all (S i) ps'
      end
  end.

Definition firstMatch (lb : regex) (w : nat) (body : regex)
    (line : string) : option string :=
  let all := positions None line in
  firstMatchFrom lb w body all 0 all.

End Regex.

(** ** Constants of the marker grammar *)

(** [Sync.ts] imports these from [./common].  The values are those of the
    constants file of the repository, which spells the names in lower case
    ([readstart], [writeend], [markdowncodeticks], ...), and of section 6
    of the specification; the names are spelled here as [Sync.ts] uses
    them. *)
Definition markdownCodeTicks : string := "```".
Definition fmtStartCodeBlock (ext : string) : string := markdownCodeTicks ++ ext.
Definition readStart : string := "@@@START".
Definition readEnd : string := "@@@END".
Definition writeStart : string := "<!--START".
Definition writeEnd : string := "<!--END".

(** ** [extractID] and [determineExtension] *)

(** The subpattern [\w+]. *)
Definition word : Regex.regex := Regex.Plus (Regex.Class JS.isWord).

(** [\bSNIPSTART\s], the body of the lookbehind; it is ten characters wide. *)
Definition idLookbehind : Regex.regex :=
  Regex.Seq Regex.WordBoundary
    (Regex.lits "SNIPSTART" (Regex.Class JS.isSpace)).

(** [(\w+-\w+)+(\w+)]. *)
Definition idBody : Regex.regex :=
  Regex.Seq
    (Regex.Plus (Regex.Seq word (Regex.Seq (Regex.lit "-") word)))
    word.

(** [line.match(/(?<=\bSNIPSTART\s)(\w+-\w+)+(\w+)/g)[0]]: [None] stands
    for the [TypeError] of indexing [null]. *)
Definition extractID (line : string) : option string :=
  Regex.firstMatch idLookbehind 10 idBody line.

Definition extractID_or_throw (line : string) : result string :=
  match extractID line with
  | Some id => Ok id
  | None => Throw TypeError_null_index
  end.

(** [parts[parts.length - 1]] of [path.split(".")]. *)
Definition determineExtension (path : string) : string :=
  last (JS.split "." path) EmptyString.

(** ** The data model *)

(** [interface FilePath]. *)
Module FilePath.
Record t : Type := mk { name : string; directory : string; saved : bool }.
End FilePath.

(** [class Snippet].  [ref] is optional in the configuration: [None] is
    [undefined]. *)
Module Snippet.

Record t : Type := mk {
  id : string;
  ext : string;
  owner : string;
  repo : string;
  ref : option string;
  filePath : FilePath.t;
  lines : list string
}.

(** The constructor: [lines] starts empty. *)
Definition new (id ext owner repo : string) (ref : option string)
    (filePath : FilePath.t) : t :=
  mk id ext owner repo ref filePath [].

Definition setLines (this : t) (ls : list string) : t :=
  mk (id this) (ext this) (owner this) (repo this) (ref this)
     (filePath this) ls.

(** [buildPath]: the directory segments minus the first, then the file
    name, joined by a slash. *)
Definition buildPath (this : t) : string :=
  let sourceURLParts := JS.split "/" (FilePath.directory (filePath this)) in
  JS.join "/" (JS.slice1 sourceURLParts ++ [FilePath.name (filePath this)]).

(** [buildURL]: [ref] defaults to the literal [master] when it is the empty
    string or [undefined]. *)
Definition buildURL (this : t) : string :=
  let sourceURLParts := JS.split "/" (FilePath.directory (filePath this)) in
  let ref :=
    match ref this with
    | Some r => if String.eqb r "" then "master" else r
    | None => "master"
    end in
  JS.join "/"
    (["https://github.com"; owner this; repo this; "blob"; ref]
     ++ JS.slice1 sourceURLParts ++ [FilePath.name (filePath this)]).

(** [fmtSourceLink]: the template literal [[${path}](${url})]. *)
Definition fmtSourceLink (this : t) : string :=
  let url := buildURL this in
  let path := buildPath this in
  "[" ++ path ++ "](" ++ url ++ ")".

(** [fmt]: three in-place [splice] calls on [this.lines]. *)
Definition fmt (withSourceLink : bool) (this : t) : t :=
  let l1 := JS.splice (lines this) 0 0 [fmtStartCodeBlock (ext this)] in
  let l2 := JS.splice l1 (Z.of_nat (length l1)) 0 [markdownCodeTicks] in
  let l3 := if withSourceLink
            then JS.splice l2 0 0 [fmtSourceLink this] else l2 in
  setLines this l3.

End Snippet.

(** [class File]. *)
Module File.
Record t : Type := mk { filename : string; lines : list string }.
End File.

(** ** The snippet extractor: the per-file loop of [extractSnippets] *)

(** The variables of the loop: [capture], [fileSnipsCount], [fileSnips]. *)
Record ExtractState : Type := mkExtract {
  capture : bool;
  fileSnipsCount : nat;
  fileSnips : list Snippet.t
}.

(** [fileSnips[i].lines.push(line)]: reading [.lines] of an element past
    the end of the array throws. *)
Fixpoint pushLine (fileSnips : list Snippet.t) (i : nat) (line : string)
    : result (list Snippet.t) :=
  match fileSnips, i with
  | [], _ => Throw TypeError_undefined_lines
  | sn :: rest, O =>
      Ok (Snippet.setLines sn (Snippet.lines sn ++ [line]) :: rest)
  | sn :: rest, S i' =>
      rest' <- pushLine rest i' line ;; Ok (sn :: rest')
  end.

Section Extract.

Variables (ext owner repo : string) (ref : option string)
          (item : FilePath.t).

(** The callback handed to [eachLineAsync]: one line of the source file. *)
Definition extractLine (st : ExtractState) (line : string)
    : result ExtractState :=
  let st1 :=
    if JS.includes line readEnd
    then mkExtract false (S (fileSnipsCount st)) (fileSnips st)
    else st in
  st2 <- (if capture st1
          then snips <- pushLine (fileSnips st1) (fileSnipsCount st1) line ;;
               Ok (mkExtract (capture st1) (fileSnipsCount st1) snips)
          else Ok st1) ;;
  if JS.includes line readStart
  then id <- extractID_or_throw line ;;
       let snip := Snippet.new (JS.trim id) ext owner repo ref item in
       Ok (mkExtract true (fileSnipsCount st2) (fileSnips st2 ++ [snip]))
  else Ok st2.

Fixpoint extractLines (lines : list string) (st : ExtractState)
    : result ExtractState :=
  match lines with
  | [] => Ok st
  | line :: rest => st' <- extractLine st line ;; extractLines rest st'
  end.

End Extract.

(** One iteration of [for (const item of filePaths)], given the lines of
    the file: the snippets pushed onto [snippets], still unformatted. *)
Definition extractFile (owner repo : string) (ref : option string)
    (item : FilePath.t) (lines : list string) : result (list Snippet.t) :=
  let ext := determineExtension (FilePath.name item) in
  st <- extractLines ext owner repo ref item lines (mkExtract false 0 []) ;;
  Ok (fileSnips st).

(** The closing loop of [extractSnippets]: every snippet is formatted. *)
Definition fmtAll (enable_source_link : bool) (snippets : list Snippet.t)
    : list Snippet.t :=
  map (Snippet.fmt enable_source_link) snippets.

(** ** The target splicer: [getSplicedFile] and [spliceFile] *)

(** [spliceFile(start, end, snippet, file)]. *)
Definition spliceFile (start end_ : nat) (snippet : Snippet.t)
    (lines : list string) : list string :=
  let rmlines := (Z.of_nat end_ - Z.of_nat start)%Z in
  JS.splice lines (Z.of_nat start) (rmlines - 1) (Snippet.lines snippet).

(** The state of the loop of [getSplicedFile].  [staticFile], [dynamicFile]
    and [file] name one object, so the array the iterator walks, the array
    the lines are read from and the array [spliceFile] mutates are the one
    [s_lines]; [s_idx] is the index the array iterator has reached. *)
Record SpliceState : Type := mkSplice {
  s_lines : list string;
  s_idx : nat;
  fileLineNumber : nat;
  lookForStop : bool;
  spliceStart : nat
}.

Definition spliceInit (lines : list string) : SpliceState :=
  mkSplice lines 0 1 false 0.

(** The body of the loop at [line = file.lines[idx]]. *)
Definition spliceBody (snippet : Snippet.t) (st : SpliceState)
    (line : string) : result SpliceState :=
  st1 <- (if JS.includes line writeStart
          then id <- extractID_or_throw line ;;
               if String.eqb id (Snippet.id snippet)
               then Ok (mkSplice (s_lines st) (s_idx st) (fileLineNumber st)
                                 true (fileLineNumber st))
               else Ok st
          else Ok st) ;;
  let st2 :=
    if JS.includes line writeEnd && lookForStop st1
    then mkSplice (spliceFile (spliceStart st1) (fileLineNumber st1)
                              snippet (s_lines st1))
                  (s_idx st1) (fileLineNumber st1) false (spliceStart st1)
    else st1 in
  Ok (mkSplice (s_lines st2) (S (s_idx st2)) (S (fileLineNumber st2))
               (lookForStop st2) (spliceStart st2)).

(** One turn of the [for ... of staticFile.lines.entries()] loop: the array
    iterator compares its index with the current length of the array and
    either finishes ([None]) or yields the index. *)
Definition spliceNext (snippet : Snippet.t) (st : SpliceState)
    : option (result SpliceState) :=
  match nth_error (s_lines st) (s_idx st) with
  | None => None
  | Some line => Some (spliceBody snippet st line)
  end.

(** At most [n] turns of the loop. *)
Fixpoint spliceRun (n : nat) (snippet : Snippet.t) (st : SpliceState)
    : result SpliceState :=
  match n with
  | O => Ok st
  | S n' =>
      match spliceNext snippet st with
      | None => Ok st
      | Some r => st' <- r ;; spliceRun n' snippet st'
      end
  end.

(** The whole loop: [None] when the fuel runs out before the iterator
    finishes. *)
Fixpoint spliceLoop (fuel : nat) (snippet : Snippet.t) (st : SpliceState)
    : option (result (list string)) :=
  match fuel with
  | O => None
  | S fuel' =>
      match spliceNext snippet st with
      | None => Some (Ok (s_lines st))
      | Some (Throw e) => Some (Throw e)
      | Some (Ok st') => spliceLoop fuel' snippet st'
      end
  end.

Definition getSplicedFile (fuel : nat) (snippet : Snippet.t) (file : File.t)
    : option (result File.t) :=
  match spliceLoop fuel snippet (spliceInit (File.lines file)) with
  | None => None
  | Some (Throw e) => Some (Throw e)
  | Some (Ok ls) => Some (Ok (File.mk (File.filename file) ls))
  end.

(** The inner loop of [spliceSnippets]: one snippet against every file. *)
Fixpoint spliceEach (fuel : nat) (snippet : Snippet.t) (files : list File.t)
    : option (result (list File.t)) :=
  match files with
  | [] => Some (Ok [])
  | file :: rest =>
      match getSplicedFile fuel snippet file with
      | None => None
      | Some (Throw e) => Some (Throw e)
      | Some (Ok file') =>
          match spliceEach fuel snippet rest with
          | None => None
          | Some (Throw e) => Some (Throw e)
          | Some (Ok rest') => Some (Ok (file' :: rest'))
          end
      end
  end.

(** [spliceSnippets]: every snippet, in order, against every file. *)
Fixpoint spliceSnippets (fuel : nat) (snippets : list Snippet.t)
    (files : list File.t) : option (result (list File.t)) :=
  match snippets with
  | [] => Some (Ok files)
  | snippet :: rest =>
      match spliceEach fuel snippet files with
      | None => None
      | Some (Throw e) => Some (Throw e)
      | Some (Ok files') => spliceSnippets fuel rest files'
      end
  end.

(** ** The clear operation: [getClearedFile] *)

(** The body of the loop: [omit] and [newFileLines]. *)
Definition clearStep (st : bool * list string) (line : string)
    : bool * list string :=
  let '(omit, newFileLines) := st in
  let omit1 := if JS.includes line writeEnd then false else omit in
  let newFileLines1 :=
    if negb omit1 then newFileLines ++ [line] else newFileLines in
  let omit2 := if JS.includes line writeStart then true else omit1 in
  (omit2, newFileLines1).

Definition clearLines (lines : list string) : list string :=
  snd (fold_left clearStep lines (false, [])).

Definition getClearedFile (file : File.t) : File.t :=
  File.mk (File.filename file) (clearLines (File.lines file)).

Definition clearSnippets (files : list File.t) : list File.t :=
  map getClearedFile files.

(** ** Vocabulary of the statements *)

(** The [ref] that [buildURL] writes into the link. *)
Definition refOrMaster (r : option string) : string :=
  match r with
  | Some r => if String.eqb r "" then "master" else r
  | None => "master"
  end.

(** A file seen as a sequence of segments: a line outside every region, or
    a region made of a start marker line, its interior and an end marker
    line.  The same shape describes capture regions of source files and
    insertion regions of target files. *)
Inductive seg : Type :=
| Plain (l : string)
| Region (s : string) (body : list string) (e : string).

Definition renderSeg (sg : seg) : list string :=
  match sg with
  | Plain l => [l]
  | Region s body e => s :: body ++ [e]
  end.

Definition render (sgs : list seg) : list string := flat_map renderSeg sgs.

(** The region with its interior replaced. *)
Definition withBody (body : list string) (sg : seg) : seg :=
  match sg with
  | Plain l => Plain l
  | Region s _ e => Region s body e
  end.

(** Lines classified by the markers they contain. *)
Section Markers.

Variables startM endM : string.

Definition startOnly (l : string) : bool :=
  JS.includes l startM && negb (JS.includes l endM).

Definition endOnly (l : string) : bool :=
  JS.includes l endM && negb (JS.includes l startM).

Definition markerFree (l : string) : bool :=
  negb (JS.includes l startM) && negb (JS.includes l endM).

End Markers.

Definition hasID (l : string) : bool :=
  match extractID l with
  | Some _ => true
  | None => false
  end.

(** A source file with flat, properly paired capture regions: no marker
    outside a region, and each region is a capture-start line with an
    extractable id, marker-free lines, and a capture-end line. *)
Definition wfCaptureSeg (sg : seg) : bool :=
  match sg with
  | Plain l => markerFree readStart readEnd l
  | Region s body e =>
      startOnly readStart readEnd s && hasID s
      && forallb (markerFree readStart readEnd) body
      && endOnly readStart readEnd e
  end.

(** The snippet a capture region yields. *)
Definition snippetOf (ext owner repo : string) (ref : option string)
    (item : FilePath.t) (sg : seg) : list Snippet.t :=
  match sg with
  | Plain _ => []
  | Region s body _ =>
      match extractID s with
      | Some id =>
          [Snippet.mk (JS.trim id) ext owner repo ref item body]
      | None => []
      end
  end.

(** A target file with flat insertion regions: no insertion-start line
    outside a region (a stray insertion-end line is allowed there), and
    each region is an insertion-start line, marker-free lines, and an
    insertion-end line. *)
Definition flatInsertionSeg (sg : seg) : bool :=
  match sg with
  | Plain l => negb (JS.includes l writeStart)
  | Region s body e =>
      startOnly writeStart writeEnd s
      && forallb (markerFree writeStart writeEnd) body
      && endOnly writeStart writeEnd e
  end.

(** Flat insertion regions whose start lines all carry an extractable id. *)
Definition wfInsertionSeg (sg : seg) : bool :=
  flatInsertionSeg sg
  && match sg with
     | Plain _ => true
     | Region s _ _ => hasID s
     end.

(** The formatted lines of a snippet contain no insertion marker. *)
Definition markerFreeSnippet (sn : Snippet.t) : bool :=
  forallb (markerFree writeStart writeEnd) (Snippet.lines sn).

(** A line on which the pass for [snippet] neither throws nor records a
    start: it has no insertion-start marker, or the id extracted from it
    is not the snippet's. *)
Definition passive (snippet : Snippet.t) (l : string) : bool :=
  negb (JS.includes l writeStart)
  || match extractID l with
     | Some id => negb (String.eqb id (Snippet.id snippet))
     | None => false
     end.

(** The file with every insertion region emptied. *)
Definition skeleton (sgs : list seg) : list seg := map (withBody []) sgs.

(** [lines] is a well-formed target file whose emptied form is [sk]. *)
Definition wellFormed (sk : list seg) (lines : list string) : Prop :=
  exists sgs,
    forallb wfInsertionSeg sgs = true /\ render sgs = lines
    /\ skeleton sgs = sk.

(** A target file described by its name and its segments. *)
Definition fileOf (d : string * list seg) : File.t :=
  File.mk (fst d) (render (snd d)).

(** The number of lines that carry an insertion-start marker. *)
Definition countStart (ls : list string) : nat :=
  length (filter (fun l => JS.includes l writeStart) ls).

(** The quantity that decreases at every turn of the splice loop on a
    well-formed file: what is left of the array, plus room for the growth
    that each insertion-start line still ahead (or the region being
    closed) may cause. *)
Definition passMeasure (snippet : Snippet.t) (st : SpliceState) : nat :=
  (length (s_lines st) - s_idx st)
  + S (length (Snippet.lines snippet))
    * (countStart (skipn (s_idx st) (s_lines st))
       + (if lookForStop st then 1 else 0)).

(** The invariant of the splice loop on a well-formed file: the array is
    still a well-formed file with the same markers, and when the flag is
    set the recorded start is the start line of a region that the index
    has entered and not left. *)
Definition passInv (sk : list seg) (st : SpliceState) : Prop :=
  fileLineNumber st = S (s_idx st)
  /\ exists sgs,
       forallb wfInsertionSeg sgs = true /\ render sgs = s_lines st
       /\ skeleton sgs = sk
       /\ (lookForStop st = true ->
           exists A s body e B,
             sgs = A ++ Region s body e :: B
             /\ spliceStart st = S (length (render A))
             /\ length (render A) < s_idx st
             /\ s_idx st <= length (render A) + S (length body)).

(** The target file [f] has the name and the emptied form that [d]
    gives, and is well formed. *)
Definition describes (f : File.t) (d : string * list seg) : Prop :=
  File.filename f = fst d /\ wellFormed (snd d) (File.lines f).

(** A formatted snippet one of whose captured lines is an HTML comment
    that contains the insertion-end marker, used in examples. *)
Definition htmlSnippet : Snippet.t :=
  Snippet.mk "ab-cd" "html" "acme" "widgets" None
    (FilePath.mk "page.html" "/site" true)
    ["```html"; "<!--END of header-->"; "```"].

(** A formatted three-line snippet with the given id, used in examples. *)
Definition jsSnippet (id : string) : Snippet.t :=
  Snippet.mk id "js" "acme" "widgets" None
    (FilePath.mk "new.js" "/src" true) ["```js"; "new"; "```"].

(** [n] runs of [spliceSnippets] with the same snippets. *)
Fixpoint spliceTimes (n fuel : nat) (snippets : list Snippet.t)
    (files : list File.t) : option (result (list File.t)) :=
  match n with
  | O => Some (Ok files)
  | S n' =>
      match spliceSnippets fuel snippets files with
      | None => None
      | Some (Throw e) => Some (Throw e)
      | Some (Ok files') => spliceTimes n' fuel snippets files'
      end
  end.

(** The texts a pattern can match, whatever the order in which a
    backtracking engine tries them. *)
Inductive accepts : Regex.regex -> string -> Prop :=
| acc_class (c : ascii -> bool) (a : ascii) :
    c a = true -> accepts (Regex.Class c) (String a EmptyString)
| acc_seq (r1 r2 : Regex.regex) (w1 w2 : string) :
    accepts r1 w1 -> accepts r2 w2 ->
    accepts (Regex.Seq r1 r2) (w1 ++ w2)%string
| acc_plus_one (r : Regex.regex) (w : string) :
    accepts r w -> accepts (Regex.Plus r) w
| acc_plus_more (r : Regex.regex) (w1 w2 : string) :
    accepts r w1 -> accepts (Regex.Plus r) w2 ->
    accepts (Regex.Plus r) (w1 ++ w2)%string
| acc_boundary : accepts Regex.WordBoundary EmptyString.

(** Every character of [s] satisfies [p]. *)
Fixpoint allChars (p : ascii -> bool) (s : string) : bool :=
  match s with
  | EmptyString => true
  | String c rest => p c && allChars p rest
  end.

(** The characters an extracted id is made of: word characters and the
    hyphen. *)
Definition idChar (c : ascii) : bool := JS.isWord c || Ascii.eqb c "-".

(** The string [s] does not contain the character [c]. *)
Definition lacks (c : ascii) (s : string) : bool :=
  allChars (fun x => negb (Ascii.eqb x c)) s.

(** A snippet without its body: its id and provenance. *)
Definition headerOf (sn : Snippet.t) : Snippet.t := Snippet.setLines sn [].

(** The id [extractSnippets] gives the snippet opened by a capture-start
    line. *)
Definition idOfLine (l : string) : string :=
  match extractID l with
  | Some id => JS.trim id
  | None => EmptyString
  end.

(** The lines [getClearedFile] keeps from [lines] when it enters them with
    the flag [omit]: the loop of [clearStep] read as a recursion on the
    lines still to come. *)
Fixpoint clearFrom (omit : bool) (lines : list string) : list string :=
  match lines with
  | [] => []
  | line :: rest =>
      let omit1 := if JS.includes line writeEnd then false else omit in
      (if omit1 then [] else [line])
      ++ clearFrom (if JS.includes line writeStart then true else omit1) rest
  end.

(** The insertion-start line [s] carries the id of [snippet]. *)
Definition carriesId (snippet : Snippet.t) (s : string) : bool :=
  match extractID s with
  | Some id => String.eqb id (Snippet.id snippet)
  | None => false
  end.

(** The segment after a pass for [snippet] that reaches it: a region that
    carries the snippet's id holds the snippet's lines, anything else is
    untouched. *)
Definition fillSeg (snippet : Snippet.t) (sg : seg) : seg :=
  match sg with
  | Plain l => Plain l
  | Region s body e =>
      if carriesId snippet s then Region s (Snippet.lines snippet) e else sg
  end.

(** The interior of a region that carries the snippet's id is not longer
    than the snippet, so that replacing it does not shorten the file. *)
Definition fits (snippet : Snippet.t) (sg : seg) : bool :=
  match sg with
  | Plain _ => true
  | Region s body _ =>
      if carriesId snippet s
      then (length body <=? length (Snippet.lines snippet))%nat
      else true
  end.

(** The segments after one pass per snippet, in the order of the list. *)
Definition fillAll (snippets : list Snippet.t) (sgs : list seg) : list seg :=
  fold_left (fun acc sn => map (fillSeg sn) acc) snippets sgs.

(** Every line that contains the insertion-start marker carries an id the
    pattern extracts. *)
Definition idsExtractable (ls : list string) : bool :=
  forallb (fun l => negb (JS.includes l writeStart) || hasID l) ls.

(** ** Further functions of [Sync.ts] *)

(** The loop [for (const item of filePaths)] of [extractSnippets] for one
    repository: each file is given with the lines [eachLineAsync] reads
    from it; the snippets of the files are pushed in order, and an
    exception in any file ends the loop. *)
Fixpoint extractRepo (owner repo : string) (ref : option string)
    (files : list (FilePath.t * list string)) : result (list Snippet.t) :=
  match files with
  | [] => Ok []
  | (item, lines) :: rest =>
      fileSnips <- extractFile owner repo ref item lines ;;
      more <- extractRepo owner repo ref rest ;;
      Ok (fileSnips ++ more)
  end.

(** [extractSnippets] for a single repository: the loop over its files,
    then [fmt] on every snippet. *)
Definition extractSnippets (enable_source_link : bool)
    (owner repo : string) (ref : option string)
    (files : list (FilePath.t * list string)) : result (list Snippet.t) :=
  snippets <- extractRepo owner repo ref files ;;
  Ok (fmtAll enable_source_link snippets).

(** The string [writeFiles] writes for a file: its lines joined by line
    feeds, and a final line feed. *)
Definition fileString (file : File.t) : string :=
  (JS.join (String "010" "") (File.lines file) ++ String "010" "")%string.

(** [run] for a single origin, with what the collaborators return (the
    files of the unpacked archive and the target files) as inputs and what
    [writeFiles] is handed as output: extract and format the snippets,
    then splice them into every target file. *)
Definition run (fuel : nat) (enable_source_link : bool)
    (owner repo : string) (ref : option string)
    (files : list (FilePath.t * list string)) (targets : list File.t)
    : option (result (list File.t)) :=
  match extractSnippets enable_source_link owner repo ref files with
  | Throw e => Some (Throw e)
  | Ok snippets => spliceSnippets fuel snippets targets
  end.

(** A source file described by its path and its segments. *)
Definition sourceOf (d : FilePath.t * list seg) : FilePath.t * list string :=
  (fst d, render (snd d)).

(** The unformatted snippets of a repository whose files are given by
    their segments. *)
Definition snippetsOf (owner repo : string) (ref : option string)
    (srcs : list (FilePath.t * list seg)) : list Snippet.t :=
  flat_map
    (fun d =>
       flat_map
         (snippetOf (determineExtension (FilePath.name (fst d)))
                    owner repo ref (fst d))
         (snd d))
    srcs.

(** * Properties *)

(** ** Basic facts about the primitives *)

Lemma append_assoc (a b c : string) :
  ((a ++ b) ++ c = a ++ (b ++ c))%string.
Proof.
  induction a as [|x a IH]; simpl; [reflexivity | now rewrite IH].
Qed.

Lemma nth_error_middle {A : Type} (front back : list A) (x : A) :
  nth_error (front ++ x :: back) (length front) = Some x.
Proof.
  induction front as [|y front IH]; simpl; [reflexivity | exact IH].
Qed.

Lemma skipn_nth_error {A : Type} (l : list A) (i : nat) (x : A) :
  nth_error l i = Some x -> skipn i l = x :: skipn (S i) l.
Proof.
  revert i. induction l as [|y l IH]; intros [|i] H; simpl in *;
    try discriminate.
  - injection H as ->. reflexivity.
  - apply IH. exact H.
Qed.

Lemma skipn_exact {A : Type} (front back : list A) (n : nat) :
  n = length front -> skipn n (front ++ back) = back.
Proof.
  intros ->. rewrite skipn_app, skipn_all, Nat.sub_diag. reflexivity.
Qed.

Lemma skipn_past {A : Type} (front back : list A) (n : nat) :
  length front <= n ->
  skipn n (front ++ back) = skipn (n - length front) back.
Proof.
  intros H. rewrite skipn_app, skipn_all2 by exact H. reflexivity.
Qed.

Lemma forallb_nth_error {A : Type} (p : A -> bool) (l : list A) (i : nat)
    (x : A) :
  forallb p l = true -> nth_error l i = Some x -> p x = true.
Proof.
  intros Hall Hn. rewrite forallb_forall in Hall.
  apply Hall. eapply nth_error_In. exact Hn.
Qed.

Lemma forallb_skipn {A : Type} (p : A -> bool) (n : nat) (l : list A) :
  forallb p l = true -> forallb p (skipn n l) = true.
Proof.
  revert n. induction l as [|x l IH]; intros [|n] H; simpl in *; auto.
  apply andb_true_iff in H as [_ H]. auto.
Qed.

(** [splice] inside the bounds of the array: keep [s] elements, drop [d],
    put [items] in their place. *)
Lemma splice_in_bounds {A : Type} (l items : list A) (s d : nat) :
  s + d <= length l ->
  JS.splice l (Z.of_nat s) (Z.of_nat d) items
  = firstn s l ++ items ++ skipn (s + d) l.
Proof.
  intros Hb. unfold JS.splice.
  assert (Hs : (Z.of_nat s <? 0)%Z = false) by (apply Z.ltb_ge; lia).
  rewrite Hs.
  replace (Z.min (Z.of_nat s) (Z.of_nat (length l))) with (Z.of_nat s) by lia.
  replace (Z.min (Z.max (Z.of_nat d) 0) (Z.of_nat (length l) - Z.of_nat s))
    with (Z.of_nat d) by lia.
  rewrite <- Nat2Z.inj_add, !Nat2Z.id. reflexivity.
Qed.

Lemma splice_front {A : Type} (l items : list A) :
  JS.splice l 0 0 items = items ++ l.
Proof.
  change 0%Z with (Z.of_nat 0).
  rewrite splice_in_bounds by (simpl; lia). reflexivity.
Qed.

Lemma splice_back {A : Type} (l items : list A) :
  JS.splice l (Z.of_nat (length l)) 0 items = l ++ items.
Proof.
  change 0%Z with (Z.of_nat 0).
  rewrite splice_in_bounds by lia.
  rewrite Nat.add_0_r, firstn_all, skipn_all, app_nil_r. reflexivity.
Qed.

(** [spliceFile] between a start marker at index [length pre] and an end
    marker [length interior + 1] lines below it: line numbers are 1-based,
    so [start] is the index just after the start marker. *)
Lemma spliceFile_region (snippet : Snippet.t) (pre interior post : list string)
    (s e : string) :
  spliceFile (S (length pre)) (S (length pre + S (length interior))) snippet
             (pre ++ s :: interior ++ e :: post)
  = pre ++ s :: Snippet.lines snippet ++ e :: post.
Proof.
  unfold spliceFile.
  replace (Z.of_nat (S (length pre + S (length interior)))
           - Z.of_nat (S (length pre)) - 1)%Z
    with (Z.of_nat (length interior)) by lia.
  rewrite splice_in_bounds.
  - replace (pre ++ s :: interior ++ e :: post)
      with ((pre ++ [s]) ++ interior ++ e :: post)
      by (rewrite <- app_assoc; reflexivity).
    replace (S (length pre)) with (length (pre ++ [s]))
      by (rewrite length_app; simpl; lia).
    rewrite firstn_app, firstn_all, Nat.sub_diag, firstn_O, app_nil_r.
    rewrite skipn_app.
    replace (skipn (length (pre ++ [s]) + length interior) (pre ++ [s]))
      with (@nil string) by (symmetry; apply skipn_all2; lia).
    replace (length (pre ++ [s]) + length interior - length (pre ++ [s]))
      with (length interior) by lia.
    rewrite skipn_app, skipn_all, Nat.sub_diag. simpl.
    rewrite <- app_assoc. reflexivity.
  - rewrite length_app. simpl. rewrite length_app. simpl. lia.
Qed.

(** ** The snippet formatter *)

Lemma buildURL_eq (s : Snippet.t) :
  Snippet.buildURL s
  = ("https://github.com/" ++ Snippet.owner s ++ "/" ++ Snippet.repo s
     ++ "/blob/" ++ refOrMaster (Snippet.ref s) ++ "/"
     ++ Snippet.buildPath s)%string.
Proof.
  unfold Snippet.buildURL, Snippet.buildPath, refOrMaster.
  set (ps := JS.slice1 _).
  set (r := match Snippet.ref s with Some _ => _ | None => _ end).
  destruct ps as [|p ps]; simpl; rewrite ?append_assoc; reflexivity.
Qed.

Lemma fmt_lines (b : bool) (s : Snippet.t) :
  Snippet.lines (Snippet.fmt b s)
  = (if b then [Snippet.fmtSourceLink s] else [])
    ++ fmtStartCodeBlock (Snippet.ext s) :: Snippet.lines s
    ++ [markdownCodeTicks].
Proof.
  unfold Snippet.fmt. destruct b; simpl;
    rewrite splice_back, !splice_front; reflexivity.
Qed.

(** C6.  Formatting a snippet changes nothing but its lines; without the
    source link the new lines are the opening fence (three backticks and
    the extension), the captured lines untouched, and the closing fence;
    with the source link one more line comes first, the markdown link
    whose text is the directory segments minus the first and then the file
    name joined by slashes, and whose URL is
    https://github.com/owner/repo/blob/ref/path with [ref] replaced by
    [refOrMaster ref], that is [master] when [ref] is undefined or empty
    and [ref] itself otherwise.  The last two conjuncts are the two
    formatting examples of the specification. *)
Theorem fmt_fences_and_source_link (s : Snippet.t) :
  (forall b, Snippet.setLines (Snippet.fmt b s) (Snippet.lines s) = s)
  /\ Snippet.lines (Snippet.fmt false s)
     = ("```" ++ Snippet.ext s)%string :: Snippet.lines s ++ ["```"]
  /\ Snippet.lines (Snippet.fmt true s)
     = Snippet.fmtSourceLink s
       :: ("```" ++ Snippet.ext s)%string :: Snippet.lines s ++ ["```"]
  /\ Snippet.buildPath s
     = JS.join "/" (tl (JS.split "/" (FilePath.directory (Snippet.filePath s)))
                    ++ [FilePath.name (Snippet.filePath s)])
  /\ Snippet.fmtSourceLink s
     = ("[" ++ Snippet.buildPath s ++ "](https://github.com/"
        ++ Snippet.owner s ++ "/" ++ Snippet.repo s ++ "/blob/"
        ++ refOrMaster (Snippet.ref s) ++ "/" ++ Snippet.buildPath s
        ++ ")")%string
  /\ refOrMaster None = "master" /\ refOrMaster (Some "") = "master"
  /\ (forall id owner repo ref fp,
        Snippet.lines
          (Snippet.fmt false (Snippet.mk id "go" owner repo ref fp ["a"; "b"]))
        = ["```go"; "a"; "b"; "```"])
  /\ (forall id ext saved ls,
        hd_error
          (Snippet.lines
             (Snippet.fmt true
                (Snippet.mk id ext "acme" "widgets" (Some "")
                   (FilePath.mk "bar.go" "/pkg/foo" saved) ls)))
        = Some "[pkg/foo/bar.go](https://github.com/acme/widgets/blob/master/pkg/foo/bar.go)").
Proof.
  split; [|split; [|split; [|split; [|split; [|split; [|split; [|split]]]]]]].
  - intros b. destruct s; reflexivity.
  - rewrite fmt_lines. reflexivity.
  - rewrite fmt_lines. reflexivity.
  - reflexivity.
  - unfold Snippet.fmtSourceLink. rewrite buildURL_eq.
    rewrite !append_assoc. reflexivity.
  - reflexivity.
  - reflexivity.
  - intros. rewrite fmt_lines. reflexivity.
  - intros. rewrite fmt_lines. reflexivity.
Qed.

(** ** Id extraction *)

(** C3.  On the line [@@@START SNIPSTART my-id-1] the pattern does not
    yield [my-id-1]: the trailing [(\w+)] must match after the last
    hyphenated group, so the one-character final segment is given up by
    backtracking and the match is [my-id]. *)
Theorem extractID_my_id_1 :
  extractID "@@@START SNIPSTART my-id-1" = Some "my-id"
  /\ extractID "@@@START SNIPSTART my-id-1" <> Some "my-id-1".
Proof.
  assert (H : extractID "@@@START SNIPSTART my-id-1" = Some "my-id")
    by (vm_compute; reflexivity).
  split; [exact H | rewrite H; discriminate].
Qed.

(** ** The snippet extractor *)

Lemma bind_ok {A B : Type} (a : A) (f : A -> result B) :
  bind (Ok a) f = f a.
Proof. reflexivity. Qed.

Lemma markerFree_inv (a b l : string) :
  markerFree a b l = true ->
  JS.includes l a = false /\ JS.includes l b = false.
Proof.
  unfold markerFree. intros H. apply andb_true_iff in H as [H1 H2].
  apply negb_true_iff in H1, H2. auto.
Qed.

Lemma startOnly_inv (a b l : string) :
  startOnly a b l = true ->
  JS.includes l a = true /\ JS.includes l b = false.
Proof.
  unfold startOnly. intros H. apply andb_true_iff in H as [H1 H2].
  apply negb_true_iff in H2. auto.
Qed.

Lemma endOnly_inv (a b l : string) :
  endOnly a b l = true ->
  JS.includes l b = true /\ JS.includes l a = false.
Proof.
  unfold endOnly. intros H. apply andb_true_iff in H as [H1 H2].
  apply negb_true_iff in H2. auto.
Qed.

Lemma hasID_inv (l : string) :
  hasID l = true -> exists id, extractID l = Some id.
Proof.
  unfold hasID. destruct (extractID l) as [id|]; [eauto | discriminate].
Qed.

Lemma pushLine_at (before after : list Snippet.t) (sn : Snippet.t)
    (line : string) :
  pushLine (before ++ sn :: after) (length before) line
  = Ok (before ++ Snippet.setLines sn (Snippet.lines sn ++ [line]) :: after).
Proof.
  induction before as [|x before IH]; simpl; [reflexivity|].
  rewrite IH. reflexivity.
Qed.

Section ExtractFacts.

Variables (ext owner repo : string) (ref : option string)
          (item : FilePath.t).

Local Notation "'xLine'" := (extractLine ext owner repo ref item).
Local Notation "'xLines'" := (extractLines ext owner repo ref item).

Lemma extractLines_app (l1 l2 : list string) (st : ExtractState) :
  xLines (l1 ++ l2) st = (st' <- xLines l1 st ;; xLines l2 st').
Proof.
  revert st.
  induction l1 as [|x l1 IH]; intros st; simpl; [reflexivity|].
  destruct (xLine st x); simpl; auto.
Qed.

Lemma extractLines_cons (l : string) (ls : list string) (st : ExtractState) :
  xLines (l :: ls) st = (st' <- xLine st l ;; xLines ls st').
Proof. reflexivity. Qed.

(** A marker-free line outside a capture changes nothing. *)
Lemma extractLine_idle (st : ExtractState) (l : string) :
  markerFree readStart readEnd l = true -> capture st = false ->
  xLine st l = Ok st.
Proof.
  intros Hl Hc. apply markerFree_inv in Hl as [Hs He].
  unfold extractLine. rewrite He, Hs, Hc. reflexivity.
Qed.

Lemma extractLines_idle (ls : list string) (st : ExtractState) :
  forallb (markerFree readStart readEnd) ls = true -> capture st = false ->
  xLines ls st = Ok st.
Proof.
  induction ls as [|l ls IH]; intros Hls Hc.
  - reflexivity.
  - simpl in Hls. apply andb_true_iff in Hls as [Hl Hls].
    rewrite extractLines_cons, (extractLine_idle st l Hl Hc). simpl. auto.
Qed.

(** While capturing, marker-free lines go to the snippet at index
    [fileSnipsCount]. *)
Lemma extractLines_capturing (ls : list string) (before after : list Snippet.t)
    (sn : Snippet.t) :
  forallb (markerFree readStart readEnd) ls = true ->
  xLines ls (mkExtract true (length before) (before ++ sn :: after))
  = Ok (mkExtract true (length before)
          (before ++ Snippet.setLines sn (Snippet.lines sn ++ ls) :: after)).
Proof.
  revert sn.
  induction ls as [|l ls IH]; intros sn Hls.
  - simpl. rewrite app_nil_r. destruct sn; reflexivity.
  - simpl in Hls. apply andb_true_iff in Hls as [Hl Hls].
    apply markerFree_inv in Hl as [Hs He].
    rewrite extractLines_cons.
    unfold extractLine at 1. rewrite He, Hs. simpl.
    rewrite pushLine_at. simpl.
    rewrite IH by assumption. simpl. rewrite <- app_assoc. reflexivity.
Qed.

(** A capture-start line outside a capture opens a snippet. *)
Lemma extractLine_start_idle (st : ExtractState) (s id : string) :
  startOnly readStart readEnd s = true -> extractID s = Some id ->
  capture st = false ->
  xLine st s
  = Ok (mkExtract true (fileSnipsCount st)
          (fileSnips st
           ++ [Snippet.new (JS.trim id) ext owner repo ref item])).
Proof.
  intros Hs Hid Hc. apply startOnly_inv in Hs as [Hs He].
  unfold extractLine, extractID_or_throw.
  rewrite He, Hs, Hc, Hid. reflexivity.
Qed.

(** A capture-start line inside a capture is appended to the open snippet
    and opens a snippet of its own. *)
Lemma extractLine_start_capturing (before after : list Snippet.t)
    (sn : Snippet.t) (s id : string) :
  startOnly readStart readEnd s = true -> extractID s = Some id ->
  xLine (mkExtract true (length before) (before ++ sn :: after)) s
  = Ok (mkExtract true (length before)
          ((before ++ Snippet.setLines sn (Snippet.lines sn ++ [s]) :: after)
           ++ [Snippet.new (JS.trim id) ext owner repo ref item])).
Proof.
  intros Hs Hid. apply startOnly_inv in Hs as [Hs He].
  unfold extractLine, extractID_or_throw.
  rewrite He, Hs, Hid. simpl. rewrite pushLine_at. reflexivity.
Qed.

(** A capture-end line stops the capture and advances the counter, whether
    or not a capture was active. *)
Lemma extractLine_end (st : ExtractState) (e : string) :
  endOnly readStart readEnd e = true ->
  xLine st e = Ok (mkExtract false (S (fileSnipsCount st)) (fileSnips st)).
Proof.
  intros He. apply endOnly_inv in He as [He Hs].
  unfold extractLine. rewrite He, Hs. reflexivity.
Qed.

(** A whole capture region, entered with the counter at the end of the
    array. *)
Lemma extractLines_region (snips : list Snippet.t) (s id e : string)
    (body : list string) :
  startOnly readStart readEnd s = true -> extractID s = Some id ->
  forallb (markerFree readStart readEnd) body = true ->
  endOnly readStart readEnd e = true ->
  xLines (s :: body ++ [e]) (mkExtract false (length snips) snips)
  = Ok (mkExtract false (S (length snips))
          (snips ++ [Snippet.mk (JS.trim id) ext owner repo ref item body])).
Proof.
  intros Hs Hid Hb He.
  rewrite extractLines_cons.
  rewrite (extractLine_start_idle (mkExtract false (length snips) snips)
             s id Hs Hid eq_refl).
  rewrite bind_ok, extractLines_app.
  rewrite (extractLines_capturing body snips [] _ Hb), bind_ok.
  rewrite extractLines_cons, (extractLine_end _ e He). reflexivity.
Qed.

Lemma extractLines_wf (sgs : list seg) (snips : list Snippet.t) :
  forallb wfCaptureSeg sgs = true ->
  xLines (render sgs) (mkExtract false (length snips) snips)
  = Ok (mkExtract false
          (length (snips ++ flat_map (snippetOf ext owner repo ref item) sgs))
          (snips ++ flat_map (snippetOf ext owner repo ref item) sgs)).
Proof.
  revert snips. induction sgs as [|sg sgs IH]; intros snips Hwf.
  - simpl. rewrite app_nil_r. reflexivity.
  - simpl in Hwf. apply andb_true_iff in Hwf as [Hsg Hwf].
    unfold render. simpl flat_map. fold (render sgs).
    rewrite extractLines_app.
    destruct sg as [l | s body e]; simpl in Hsg.
    + simpl renderSeg.
      rewrite extractLines_cons.
      rewrite (extractLine_idle (mkExtract false (length snips) snips)
                 l Hsg eq_refl).
      simpl. apply IH; assumption.
    + apply andb_true_iff in Hsg as [Hsg He].
      apply andb_true_iff in Hsg as [Hsg Hb].
      apply andb_true_iff in Hsg as [Hs Hid].
      apply hasID_inv in Hid as [id Hid].
      simpl renderSeg.
      rewrite (extractLines_region snips s id e body Hs Hid Hb He).
      rewrite bind_ok. cbn [flat_map snippetOf]. rewrite Hid.
      replace (S (length snips))
        with (length (snips
                      ++ [Snippet.mk (JS.trim id) ext owner repo ref item body]))
        by (rewrite length_app; simpl; lia).
      rewrite (IH _ Hwf). rewrite <- !app_assoc. reflexivity.
Qed.

Lemma extractLines_wf_init (sgs : list seg) :
  forallb wfCaptureSeg sgs = true ->
  xLines (render sgs) (mkExtract false 0 [])
  = Ok (mkExtract false
          (length (flat_map (snippetOf ext owner repo ref item) sgs))
          (flat_map (snippetOf ext owner repo ref item) sgs)).
Proof. intros Hwf. exact (extractLines_wf sgs [] Hwf). Qed.

End ExtractFacts.



(** C2.  A capture-end line outside a capture still advances the snippet
    counter.  In this file every capture-start line carries an extractable
    id and is followed by a capture-end line before the next capture-start
    line, yet the doubled capture-end makes the line [y] index the snippet
    array past its end, and extraction throws instead of returning the two
    snippets. *)
Theorem extractFile_doubled_capture_end :
  extractFile "acme" "widgets" None (FilePath.mk "bar.go" "/pkg" true)
    ["@@@START SNIPSTART ab-cd"; "x"; "@@@END"; "@@@END";
     "@@@START SNIPSTART ef-gh"; "y"; "@@@END"]
  = Throw TypeError_undefined_lines.
Proof. vm_compute. reflexivity. Qed.

(** C9, as the code has it.  A capture-start line met while a capture is
    active, in a file that consists of properly paired capture regions with
    no marker outside them, then the capture-start line [sa], marker-free
    lines, the capture-start line [sb], marker-free lines and a final
    capture-end line, both start lines carrying an extractable id.
    Extraction returns the snippets of the paired regions followed by two
    snippets, in that order; the outer one holds every line after [sa] up
    to the capture-end line, the line [sb] included, and the inner one
    holds no line.  The paired prefix is what keeps the counter equal to
    the index of the open snippet. *)
Theorem nested_capture_start (owner repo : string) (ref : option string)
    (item : FilePath.t) (sgs : list seg) (sa ida sb idb e : string)
    (mid1 mid2 : list string) :
  forallb wfCaptureSeg sgs = true ->
  startOnly readStart readEnd sa = true -> extractID sa = Some ida ->
  forallb (markerFree readStart readEnd) mid1 = true ->
  startOnly readStart readEnd sb = true -> extractID sb = Some idb ->
  forallb (markerFree readStart readEnd) mid2 = true ->
  endOnly readStart readEnd e = true ->
  let ext := determineExtension (FilePath.name item) in
  extractFile owner repo ref item
    (render sgs ++ sa :: mid1 ++ sb :: mid2 ++ [e])
  = Ok (flat_map (snippetOf ext owner repo ref item) sgs
        ++ [Snippet.mk (JS.trim ida) ext owner repo ref item
              (mid1 ++ sb :: mid2);
            Snippet.mk (JS.trim idb) ext owner repo ref item []]).
Proof.
  intros Hwf Hsa Hida Hm1 Hsb Hidb Hm2 He ext.
  unfold extractFile. fold ext.
  rewrite extractLines_app.
  rewrite (extractLines_wf_init ext owner repo ref item sgs Hwf), bind_ok.
  simpl app.
  set (snips := flat_map (snippetOf ext owner repo ref item) sgs).
  rewrite extractLines_cons.
  rewrite (extractLine_start_idle ext owner repo ref item
             (mkExtract false (length snips) snips) sa ida Hsa Hida eq_refl).
  rewrite bind_ok. cbn [capture fileSnipsCount fileSnips].
  rewrite extractLines_app.
  rewrite (extractLines_capturing ext owner repo ref item mid1 snips [] _ Hm1).
  rewrite bind_ok, extractLines_cons.
  rewrite (extractLine_start_capturing ext owner repo ref item snips [] _
             sb idb Hsb Hidb).
  rewrite bind_ok, extractLines_app.
  rewrite <- app_assoc. cbn [app].
  rewrite (extractLines_capturing ext owner repo ref item mid2 snips _ _ Hm2).
  rewrite bind_ok, extractLines_cons.
  rewrite (extractLine_end ext owner repo ref item _ e He).
  cbn [bind extractLines fileSnips Snippet.lines Snippet.setLines Snippet.new
       Snippet.id Snippet.ext Snippet.owner Snippet.repo Snippet.ref
       Snippet.filePath app].
  rewrite <- !app_assoc. reflexivity.
Qed.

Lemma nested_capture_start_witness :
  extractFile "acme" "widgets" None (FilePath.mk "bar.go" "/pkg" true)
    ["@@@START SNIPSTART ou-ter"; "a"; "@@@START SNIPSTART in-ner"; "b";
     "@@@END"]
  = Ok [Snippet.mk "ou-ter" "go" "acme" "widgets" None
          (FilePath.mk "bar.go" "/pkg" true)
          ["a"; "@@@START SNIPSTART in-ner"; "b"];
        Snippet.mk "in-ner" "go" "acme" "widgets" None
          (FilePath.mk "bar.go" "/pkg" true) []].
Proof.
  exact (nested_capture_start "acme" "widgets" None
           (FilePath.mk "bar.go" "/pkg" true) []
           "@@@START SNIPSTART ou-ter" "ou-ter"
           "@@@START SNIPSTART in-ner" "in-ner" "@@@END" ["a"] ["b"]
           eq_refl eq_refl eq_refl eq_refl eq_refl eq_refl eq_refl eq_refl).
Defined.

(** C9 does not hold after an earlier nesting.  Each capture-end line adds
    one to the counter whatever the number of snippets opened since the last
    one, so after the nested pair [aa-aa], [bb-bb] the counter is 1 while
    the array holds two snippets.  The snippet [cc-cc] is then opened at
    index 2, and the lines that follow it, its inner capture-start line
    included, are appended to [fileSnips[1]], the snippet [bb-bb] that the
    capture-end line had already passed: the still-open snippet [cc-cc]
    receives none of them. *)
Lemma nested_capture_start_after_nesting :
  extractFile "acme" "widgets" None (FilePath.mk "bar.go" "/pkg" true)
    ["@@@START SNIPSTART aa-aa"; "@@@START SNIPSTART bb-bb"; "@@@END";
     "@@@START SNIPSTART cc-cc"; "c1"; "@@@START SNIPSTART dd-dd"; "d1";
     "@@@END"]
  = Ok [Snippet.mk "aa-aa" "go" "acme" "widgets" None
          (FilePath.mk "bar.go" "/pkg" true) ["@@@START SNIPSTART bb-bb"];
        Snippet.mk "bb-bb" "go" "acme" "widgets" None
          (FilePath.mk "bar.go" "/pkg" true)
          ["c1"; "@@@START SNIPSTART dd-dd"; "d1"];
        Snippet.mk "cc-cc" "go" "acme" "widgets" None
          (FilePath.mk "bar.go" "/pkg" true) [];
        Snippet.mk "dd-dd" "go" "acme" "widgets" None
          (FilePath.mk "bar.go" "/pkg" true) []]
  /\ extractFile "acme" "widgets" None (FilePath.mk "bar.go" "/pkg" true)
       ["@@@START SNIPSTART aa-aa"; "@@@START SNIPSTART bb-bb"; "@@@END";
        "@@@START SNIPSTART cc-cc"; "c1"; "@@@START SNIPSTART dd-dd"; "d1";
        "@@@END"]
     <> Ok [Snippet.mk "aa-aa" "go" "acme" "widgets" None
              (FilePath.mk "bar.go" "/pkg" true) ["@@@START SNIPSTART bb-bb"];
            Snippet.mk "bb-bb" "go" "acme" "widgets" None
              (FilePath.mk "bar.go" "/pkg" true) [];
            Snippet.mk "cc-cc" "go" "acme" "widgets" None
              (FilePath.mk "bar.go" "/pkg" true)
              ["c1"; "@@@START SNIPSTART dd-dd"; "d1"];
            Snippet.mk "dd-dd" "go" "acme" "widgets" None
              (FilePath.mk "bar.go" "/pkg" true) []].
Proof.
  split; [vm_compute; reflexivity|].
  vm_compute. discriminate.
Qed.

(** C10.  Extraction is not total.  When the first marker line of a file
    is a capture-end line, a later capture-start line opens a snippet at
    index 0 while the counter is already 1, so the ordinary line after it
    reads [fileSnips[1]], which is [undefined], and the extraction throws
    instead of returning a snippet list. *)
Theorem stray_capture_end_breaks_extraction (owner repo : string)
    (ref : option string) (item : FilePath.t)
    (pre mid rest : list string) (stray s id l : string) :
  forallb (markerFree readStart readEnd) pre = true ->
  endOnly readStart readEnd stray = true ->
  forallb (markerFree readStart readEnd) mid = true ->
  startOnly readStart readEnd s = true -> extractID s = Some id ->
  markerFree readStart readEnd l = true ->
  extractFile owner repo ref item (pre ++ stray :: mid ++ s :: l :: rest)
  = Throw TypeError_undefined_lines.
Proof.
  intros Hpre Hstray Hmid Hs Hid Hl.
  unfold extractFile.
  set (ext := determineExtension (FilePath.name item)).
  rewrite extractLines_app.
  rewrite extractLines_idle by (assumption || reflexivity).
  rewrite bind_ok, extractLines_cons.
  rewrite (extractLine_end ext owner repo ref item _ stray Hstray).
  rewrite bind_ok, extractLines_app.
  rewrite extractLines_idle by (assumption || reflexivity).
  rewrite bind_ok, extractLines_cons.
  rewrite (extractLine_start_idle ext owner repo ref item _ s id)
    by (assumption || reflexivity).
  rewrite bind_ok, extractLines_cons.
  apply markerFree_inv in Hl as [Hls Hle].
  unfold extractLine at 1. rewrite Hle. reflexivity.
Qed.

Lemma stray_capture_end_breaks_extraction_witness :
  extractFile "acme" "widgets" None (FilePath.mk "bar.go" "/pkg" true)
    ["package bar"; "// see @@@END below"; "";
     "// @@@START SNIPSTART ab-cd"; "x := 1"; "// @@@END"]
  = Throw TypeError_undefined_lines.
Proof.
  exact (stray_capture_end_breaks_extraction "acme" "widgets" None
           (FilePath.mk "bar.go" "/pkg" true)
           ["package bar"] [""] ["// @@@END"]
           "// see @@@END below" "// @@@START SNIPSTART ab-cd" "ab-cd"
           "x := 1" eq_refl eq_refl eq_refl eq_refl eq_refl eq_refl).
Defined.

(** ** The clear operation *)

Lemma clearStep_outside (acc : list string) (l : string) :
  JS.includes l writeStart = false ->
  clearStep (false, acc) l = (false, acc ++ [l]).
Proof.
  intros Hs. unfold clearStep. rewrite Hs.
  destruct (JS.includes l writeEnd); reflexivity.
Qed.

Lemma clearStep_start (acc : list string) (s : string) :
  startOnly writeStart writeEnd s = true ->
  clearStep (false, acc) s = (true, acc ++ [s]).
Proof.
  intros Hs. apply startOnly_inv in Hs as [Hs He].
  unfold clearStep. rewrite Hs, He. reflexivity.
Qed.

Lemma clearStep_end (omit : bool) (acc : list string) (e : string) :
  endOnly writeStart writeEnd e = true ->
  clearStep (omit, acc) e = (false, acc ++ [e]).
Proof.
  intros He. apply endOnly_inv in He as [He Hs].
  unfold clearStep. rewrite Hs, He. reflexivity.
Qed.

Lemma clear_interior (acc body : list string) :
  forallb (markerFree writeStart writeEnd) body = true ->
  fold_left clearStep body (true, acc) = (true, acc).
Proof.
  induction body as [|l body IH]; simpl; intros Hb; [reflexivity|].
  apply andb_true_iff in Hb as [Hl Hb].
  apply markerFree_inv in Hl as [Hs He].
  rewrite Hs, He. simpl. auto.
Qed.

Lemma clear_render (sgs : list seg) (acc : list string) :
  forallb flatInsertionSeg sgs = true ->
  fold_left clearStep (render sgs) (false, acc)
  = (false, acc ++ render (map (withBody []) sgs)).
Proof.
  revert acc. induction sgs as [|sg sgs IH]; intros acc Hf.
  - simpl. rewrite app_nil_r. reflexivity.
  - simpl in Hf. apply andb_true_iff in Hf as [Hsg Hf].
    unfold render. cbn [flat_map map]. fold (render sgs).
    fold (render (map (withBody []) sgs)).
    rewrite fold_left_app.
    destruct sg as [l | s body e]; cbn [renderSeg withBody].
    + simpl in Hsg. apply negb_true_iff in Hsg.
      cbn [fold_left]. rewrite (clearStep_outside acc l Hsg).
      rewrite (IH _ Hf), <- app_assoc. reflexivity.
    + simpl in Hsg.
      apply andb_true_iff in Hsg as [Hsg He].
      apply andb_true_iff in Hsg as [Hs Hb].
      cbn [fold_left]. rewrite (clearStep_start acc s Hs).
      rewrite fold_left_app, (clear_interior _ body Hb).
      cbn [fold_left]. rewrite (clearStep_end true _ e He).
      rewrite (IH _ Hf), <- !app_assoc. reflexivity.
Qed.

Lemma clearLines_render (sgs : list seg) :
  forallb flatInsertionSeg sgs = true ->
  clearLines (render sgs) = render (map (withBody []) sgs).
Proof.
  intros Hf. unfold clearLines. rewrite (clear_render sgs [] Hf). reflexivity.
Qed.

(** C4, as the code has it.  On a target file whose insertion regions are
    flat (every insertion-start line opens a region of marker-free lines
    closed by an insertion-end line), the clear operation keeps the file
    name, every marker line and every line outside the regions, unchanged
    and in order, and removes exactly the interior of every region. *)
Theorem clear_empties_flat_regions (name : string) (sgs : list seg) :
  forallb flatInsertionSeg sgs = true ->
  getClearedFile (File.mk name (render sgs))
  = File.mk name (render (map (withBody []) sgs)).
Proof.
  intros Hf. unfold getClearedFile. cbn [File.lines File.filename].
  rewrite (clearLines_render sgs Hf). reflexivity.
Qed.

Lemma clear_empties_flat_regions_witness :
  getClearedFile
    (File.mk "doc.md"
       ["x"; "<!--START id1-->"; "```js"; "new"; "```"; "<!--END-->"; "y"])
  = File.mk "doc.md" ["x"; "<!--START id1-->"; "<!--END-->"; "y"].
Proof.
  exact (clear_empties_flat_regions "doc.md"
           [Plain "x";
            Region "<!--START id1-->" ["```js"; "new"; "```"] "<!--END-->";
            Plain "y"]
           eq_refl).
Defined.

(** C4 does not hold of every target file: an insertion-start line that
    comes before the insertion-end line of an open region is itself
    dropped. *)
Lemma clear_drops_nested_start :
  JS.includes "<!--START SNIPSTART ef-gh-->" writeStart = true
  /\ In "<!--START SNIPSTART ef-gh-->"
        ["<!--START SNIPSTART ab-cd-->"; "<!--START SNIPSTART ef-gh-->";
         "<!--END-->"]
  /\ getClearedFile
       (File.mk "doc.md"
          ["<!--START SNIPSTART ab-cd-->"; "<!--START SNIPSTART ef-gh-->";
           "<!--END-->"])
     = File.mk "doc.md" ["<!--START SNIPSTART ab-cd-->"; "<!--END-->"]
  /\ ~ In "<!--START SNIPSTART ef-gh-->"
          (File.lines
             (getClearedFile
                (File.mk "doc.md"
                   ["<!--START SNIPSTART ab-cd-->";
                    "<!--START SNIPSTART ef-gh-->"; "<!--END-->"]))).
Proof.
  split; [reflexivity|]. split; [simpl; auto|]. split; [reflexivity|].
  vm_compute. intros [H | [H | []]]; discriminate.
Qed.

(** ** The splice pass *)

Lemma spliceRun_add (n m : nat) (snippet : Snippet.t) (st : SpliceState) :
  spliceRun (n + m) snippet st
  = (st' <- spliceRun n snippet st ;; spliceRun m snippet st').
Proof.
  revert st. induction n as [|n IH]; intros st; simpl; [reflexivity|].
  destruct (spliceNext snippet st) as [[st' | e] |] eqn:Hn; simpl.
  - apply IH.
  - reflexivity.
  - destruct m as [|m]; simpl; [reflexivity | now rewrite Hn].
Qed.

(** The loop with fuel agrees with a run of [n] turns followed by the
    loop. *)
Lemma spliceLoop_after_run (n fuel : nat) (snippet : Snippet.t)
    (st st' : SpliceState) :
  spliceRun n snippet st = Ok st' ->
  spliceLoop (n + S fuel) snippet st = spliceLoop (S fuel) snippet st'.
Proof.
  revert st. induction n as [|n IH]; intros st Hrun.
  - simpl in Hrun. injection Hrun as ->. reflexivity.
  - cbn [spliceRun] in Hrun. cbn [Nat.add spliceLoop].
    destruct (spliceNext snippet st) as [[st1 | e] |] eqn:Hn.
    + rewrite bind_ok in Hrun. apply IH. exact Hrun.
    + discriminate.
    + injection Hrun as <-. cbn [spliceLoop]. rewrite Hn. reflexivity.
Qed.

(** The body of the loop on a passive line that does not close a pending
    region: only the position advances. *)
Lemma spliceBody_passive (snippet : Snippet.t) (st : SpliceState) (l : string) :
  passive snippet l = true ->
  lookForStop st = false \/ JS.includes l writeEnd = false ->
  spliceBody snippet st l
  = Ok (mkSplice (s_lines st) (S (s_idx st)) (S (fileLineNumber st))
          (lookForStop st) (spliceStart st)).
Proof.
  intros Hp Hq. unfold spliceBody, extractID_or_throw.
  assert (Hend : JS.includes l writeEnd && lookForStop st = false).
  { destruct Hq as [Hq | Hq]; rewrite Hq; [apply andb_false_r | reflexivity]. }
  unfold passive in Hp.
  destruct (JS.includes l writeStart) eqn:Hs; simpl in Hp.
  - destruct (extractID l) as [id|]; [|discriminate].
    apply negb_true_iff in Hp. simpl. rewrite Hp. simpl.
    rewrite Hend. reflexivity.
  - simpl. rewrite Hend. reflexivity.
Qed.

Lemma spliceRun_passive (snippet : Snippet.t) (todo front back : list string)
    (flag : bool) (start : nat) :
  forallb (passive snippet) todo = true ->
  flag = false
  \/ forallb (fun l => negb (JS.includes l writeEnd)) todo = true ->
  spliceRun (length todo) snippet
    (mkSplice (front ++ todo ++ back) (length front) (S (length front))
              flag start)
  = Ok (mkSplice (front ++ todo ++ back) (length front + length todo)
          (S (length front + length todo)) flag start).
Proof.
  revert front. induction todo as [|l todo IH]; intros front Hall Hend.
  - simpl. rewrite Nat.add_0_r. reflexivity.
  - simpl in Hall. apply andb_true_iff in Hall as [Hp Hall].
    assert (Hl : flag = false \/ JS.includes l writeEnd = false).
    { destruct Hend as [Hf | Hq]; [left; exact Hf | right].
      simpl in Hq. apply andb_true_iff in Hq as [Hq _].
      now apply negb_true_iff in Hq. }
    assert (Hend' : flag = false
                    \/ forallb (fun l => negb (JS.includes l writeEnd)) todo
                       = true).
    { destruct Hend as [Hf | Hq]; [left; exact Hf | right].
      simpl in Hq. now apply andb_true_iff in Hq as [_ Hq]. }
    cbn [spliceRun length]. unfold spliceNext. cbn [s_lines s_idx].
    cbn [app]. rewrite nth_error_middle.
    rewrite spliceBody_passive by (cbn [lookForStop]; assumption).
    rewrite bind_ok. cbn [s_lines s_idx fileLineNumber lookForStop spliceStart].
    specialize (IH (front ++ [l]) Hall Hend').
    rewrite length_app in IH. cbn [length] in IH.
    rewrite <- app_assoc in IH. cbn [app] in IH.
    rewrite Nat.add_1_r in IH. rewrite IH.
    f_equal. f_equal; lia.
Qed.

(** The body of the loop on an insertion-start line carrying the id of the
    snippet: the 1-based line number is recorded and the flag set. *)
Lemma spliceBody_start (snippet : Snippet.t) (st : SpliceState) (s : string) :
  startOnly writeStart writeEnd s = true ->
  extractID s = Some (Snippet.id snippet) ->
  spliceBody snippet st s
  = Ok (mkSplice (s_lines st) (S (s_idx st)) (S (fileLineNumber st))
          true (fileLineNumber st)).
Proof.
  intros Hs Hid. apply startOnly_inv in Hs as [Hs He].
  unfold spliceBody, extractID_or_throw.
  rewrite Hs, Hid. cbn [bind]. rewrite String.eqb_refl. cbn [bind].
  cbn [lookForStop]. rewrite He. reflexivity.
Qed.

(** The body of the loop on an insertion-end line while the flag is set:
    [spliceFile] is called with the recorded start and the current line
    number. *)
Lemma spliceBody_end (snippet : Snippet.t) (st : SpliceState) (e : string) :
  endOnly writeStart writeEnd e = true ->
  lookForStop st = true ->
  spliceBody snippet st e
  = Ok (mkSplice (spliceFile (spliceStart st) (fileLineNumber st) snippet
                             (s_lines st))
          (S (s_idx st)) (S (fileLineNumber st)) false (spliceStart st)).
Proof.
  intros He Hf. apply endOnly_inv in He as [He Hs].
  unfold spliceBody. rewrite Hs. simpl. rewrite He, Hf. reflexivity.
Qed.

(** A whole region, from its insertion-start line to its insertion-end
    line. *)
Lemma spliceRun_region (snippet : Snippet.t)
    (pre interior post : list string) (s e : string)
    (flag : bool) (start0 : nat) :
  startOnly writeStart writeEnd s = true ->
  extractID s = Some (Snippet.id snippet) ->
  forallb (passive snippet) interior = true ->
  forallb (fun l => negb (JS.includes l writeEnd)) interior = true ->
  endOnly writeStart writeEnd e = true ->
  spliceRun (length interior + 2) snippet
    (mkSplice (pre ++ s :: interior ++ e :: post)
              (length pre) (S (length pre)) flag start0)
  = Ok (mkSplice (pre ++ s :: Snippet.lines snippet ++ e :: post)
          (length pre + length interior + 2)
          (length pre + length interior + 3)
          false (S (length pre))).
Proof.
  intros Hs Hid Hint Hnoend He.
  replace (length interior + 2) with (1 + (length interior + 1)) by lia.
  rewrite spliceRun_add.
  cbn [spliceRun]. unfold spliceNext at 1. cbn [s_lines s_idx].
  rewrite nth_error_middle, (spliceBody_start snippet _ s Hs Hid).
  rewrite !bind_ok.
  cbn [s_lines s_idx fileLineNumber].
  rewrite spliceRun_add.
  pose proof (spliceRun_passive snippet interior (pre ++ [s]) (e :: post)
                true (S (length pre))) as Hrun.
  rewrite length_app in Hrun. cbn [length] in Hrun.
  rewrite Nat.add_1_r in Hrun.
  rewrite <- app_assoc in Hrun. cbn [app] in Hrun.
  rewrite Hrun; clear Hrun.
  2:{ exact Hint. }
  2:{ right. exact Hnoend. }
  rewrite bind_ok.
  cbn [spliceRun]. unfold spliceNext. cbn [s_lines s_idx].
  assert (Hn : nth_error (pre ++ s :: interior ++ e :: post)
                 (S (length pre) + length interior) = Some e).
  { replace (pre ++ s :: interior ++ e :: post)
      with ((pre ++ s :: interior) ++ e :: post)
      by (rewrite <- app_assoc; reflexivity).
    replace (S (length pre) + length interior)
      with (length (pre ++ s :: interior))
      by (rewrite length_app; simpl; lia).
    apply nth_error_middle. }
  rewrite Hn, spliceBody_end by (assumption || reflexivity).
  cbn [bind s_lines s_idx fileLineNumber lookForStop spliceStart].
  replace (S (S (length pre) + length interior))
    with (S (length pre + S (length interior))) by lia.
  rewrite spliceFile_region.
  f_equal. f_equal; lia.
Qed.

(** C7.  The loop walks the array by an index that [spliceFile] does not
    adjust.  When a replacement shortens the file, the lines that slide
    under the index are never visited: here the first region shrinks from
    four lines to three, the second insertion-start line moves to the
    index just processed, and the second region keeps its stale
    interior. *)
Theorem splice_skips_region_after_shrink :
  getSplicedFile 10 (jsSnippet "id-one")
    (File.mk "doc.md"
       ["<!--START SNIPSTART id-one-->"; "o1"; "o2"; "o3"; "o4"; "<!--END-->";
        "<!--START SNIPSTART id-one-->"; "stale"; "<!--END-->"])
  = Some (Ok (File.mk "doc.md"
                ["<!--START SNIPSTART id-one-->"; "```js"; "new"; "```";
                 "<!--END-->";
                 "<!--START SNIPSTART id-one-->"; "stale"; "<!--END-->"])).
Proof. vm_compute. reflexivity. Qed.

(** When the first replacement lengthens the file instead, the same pass
    does reach the second region. *)
Example splice_reaches_region_after_growth :
  getSplicedFile 11 (jsSnippet "id-one")
    (File.mk "doc.md"
       ["<!--START SNIPSTART id-one-->"; "<!--END-->";
        "<!--START SNIPSTART id-one-->"; "stale"; "<!--END-->"])
  = Some (Ok (File.mk "doc.md"
                ["<!--START SNIPSTART id-one-->"; "```js"; "new"; "```";
                 "<!--END-->";
                 "<!--START SNIPSTART id-one-->"; "```js"; "new"; "```";
                 "<!--END-->"])).
Proof. vm_compute. reflexivity. Qed.

(** ** Whole passes that change one region or none *)

(** From any index on, over passive lines and with no region pending, the
    loop runs to the end of the array and returns it unchanged. *)
Lemma spliceLoop_passive_rest (snippet : Snippet.t) (lines : list string)
    (idx start fuel : nat) :
  forallb (passive snippet) (skipn idx lines) = true ->
  length lines - idx < fuel ->
  spliceLoop fuel snippet (mkSplice lines idx (S idx) false start)
  = Some (Ok lines).
Proof.
  intros Hp Hfuel.
  destruct (Nat.le_gt_cases idx (length lines)) as [Hle | Hgt].
  - pose proof (spliceRun_passive snippet (skipn idx lines)
                  (firstn idx lines) [] false start Hp (or_introl eq_refl))
      as Hrun.
    rewrite app_nil_r, firstn_skipn in Hrun.
    rewrite length_firstn, length_skipn, Nat.min_l in Hrun by exact Hle.
    replace (idx + (length lines - idx)) with (length lines) in Hrun by lia.
    replace fuel
      with ((length lines - idx) + S (fuel - (length lines - idx) - 1))
      by lia.
    rewrite (spliceLoop_after_run _ _ _ _ _ Hrun).
    cbn [spliceLoop]. unfold spliceNext. cbn [s_lines s_idx].
    replace (nth_error lines (length lines)) with (@None string)
      by (symmetry; apply nth_error_None; lia).
    reflexivity.
  - destruct fuel as [|fuel]; [lia|].
    cbn [spliceLoop]. unfold spliceNext. cbn [s_lines s_idx].
    replace (nth_error lines idx) with (@None string)
      by (symmetry; apply nth_error_None; lia).
    reflexivity.
Qed.

(** X3.  Unknown id is a no-op: when no insertion-start line of the file
    carries the snippet's id (and each carries an extractable id), the pass
    returns the file unchanged. *)
Theorem splice_unknown_id_no_op (snippet : Snippet.t) (file : File.t)
    (fuel : nat) :
  forallb (passive snippet) (File.lines file) = true ->
  length (File.lines file) < fuel ->
  getSplicedFile fuel snippet file = Some (Ok file).
Proof.
  intros Hp Hfuel. unfold getSplicedFile, spliceInit.
  rewrite spliceLoop_passive_rest by (simpl; (exact Hp || lia)).
  destruct file; reflexivity.
Qed.

Lemma splice_unknown_id_no_op_witness :
  getSplicedFile 7 (jsSnippet "id-two")
    (File.mk "doc.md"
       ["x"; "<!--START SNIPSTART id-one-->"; "old1"; "old2"; "<!--END-->";
        "y"])
  = Some (Ok (File.mk "doc.md"
                ["x"; "<!--START SNIPSTART id-one-->"; "old1"; "old2";
                 "<!--END-->"; "y"])).
Proof.
  apply (splice_unknown_id_no_op (jsSnippet "id-two")
           (File.mk "doc.md"
              ["x"; "<!--START SNIPSTART id-one-->"; "old1"; "old2";
               "<!--END-->"; "y"]) 7).
  - reflexivity.
  - simpl. lia.
Defined.

(** A region of the snippet's id met after passive lines.  The loop
    replaces its interior by the snippet's lines and resumes at the old
    index of the end line plus one, that is at position
    [length interior + 1] of [Snippet.lines snippet ++ e :: post].  When the
    lines from there on are passive, the pass returns the file with exactly
    that interior replaced. *)
Lemma getSplicedFile_region_then_rest (snippet : Snippet.t) (name : string)
    (pre interior post : list string) (s e : string) (fuel : nat) :
  forallb (passive snippet) pre = true ->
  startOnly writeStart writeEnd s = true ->
  extractID s = Some (Snippet.id snippet) ->
  forallb (passive snippet) interior = true ->
  forallb (fun l => negb (JS.includes l writeEnd)) interior = true ->
  endOnly writeStart writeEnd e = true ->
  forallb (passive snippet)
    (skipn (S (length interior)) (Snippet.lines snippet ++ e :: post)) = true ->
  length (pre ++ s :: interior ++ e :: post)
  + length (Snippet.lines snippet) < fuel ->
  getSplicedFile fuel snippet
    (File.mk name (pre ++ s :: interior ++ e :: post))
  = Some (Ok (File.mk name
                (pre ++ s :: Snippet.lines snippet ++ e :: post))).
Proof.
  intros Hpre Hs Hid Hint Hnoend He Hrest Hfuel.
  rewrite length_app in Hfuel. cbn [length] in Hfuel.
  rewrite length_app in Hfuel. cbn [length] in Hfuel.
  unfold getSplicedFile, spliceInit. cbn [File.lines File.filename].
  set (L := Snippet.lines snippet) in *.
  replace fuel
    with (length pre
          + S ((length interior + 2)
               + (fuel - length pre - length interior - 3)))
    by lia.
  pose proof (spliceRun_passive snippet pre []
                (s :: interior ++ e :: post) false 0 Hpre
                (or_introl eq_refl)) as Hrun1.
  cbn [app length Nat.add] in Hrun1.
  rewrite (spliceLoop_after_run _ _ _ _ _ Hrun1).
  rewrite <- Nat.add_succ_r.
  rewrite (spliceLoop_after_run _ _ _ _ _
             (spliceRun_region snippet pre interior post s e false 0
                Hs Hid Hint Hnoend He)).
  fold L.
  replace (length pre + length interior + 3)
    with (S (length pre + length interior + 2)) by lia.
  rewrite spliceLoop_passive_rest; [reflexivity | |].
  - replace (pre ++ s :: L ++ e :: post)
      with ((pre ++ [s]) ++ L ++ e :: post)
      by (rewrite <- app_assoc; reflexivity).
    rewrite skipn_past by (rewrite length_app; simpl; lia).
    rewrite length_app. cbn [length].
    replace (length pre + length interior + 2 - (length pre + 1))
      with (S (length interior)) by lia.
    exact Hrest.
  - rewrite length_app. cbn [length]. rewrite length_app. cbn [length]. lia.
Qed.

(** C1, as the code has it.  Take a target file
    [pre ++ s :: interior ++ e :: post] in which [s] is an insertion-start
    line (it contains the insertion-start marker and not the insertion-end
    marker) whose extracted id is the snippet's, [e] is an insertion-end line
    (it contains the insertion-end marker and not the insertion-start
    marker), no line of [interior] contains the insertion-end marker, and
    every other line of the file and every line of the snippet is passive:
    it contains no insertion-start marker, or it carries an extractable id
    that differs from the snippet's.  Then the whole pass of
    [getSplicedFile] returns the file with exactly the lines strictly
    between [s] and [e] replaced by the snippet's lines; both marker lines
    and every line outside the region are unchanged. *)
Theorem splice_replaces_interior (snippet : Snippet.t) (name : string)
    (pre interior post : list string) (s e : string) (fuel : nat) :
  forallb (passive snippet) pre = true ->
  startOnly writeStart writeEnd s = true ->
  extractID s = Some (Snippet.id snippet) ->
  forallb (passive snippet) interior = true ->
  forallb (fun l => negb (JS.includes l writeEnd)) interior = true ->
  endOnly writeStart writeEnd e = true ->
  forallb (passive snippet) post = true ->
  forallb (passive snippet) (Snippet.lines snippet) = true ->
  length (pre ++ s :: interior ++ e :: post)
  + length (Snippet.lines snippet) < fuel ->
  getSplicedFile fuel snippet
    (File.mk name (pre ++ s :: interior ++ e :: post))
  = Some (Ok (File.mk name
                (pre ++ s :: Snippet.lines snippet ++ e :: post))).
Proof.
  intros Hpre Hs Hid Hint Hnoend He Hpost HL Hfuel.
  apply getSplicedFile_region_then_rest; try assumption.
  apply forallb_skipn. rewrite forallb_app. cbn [forallb].
  rewrite HL, Hpost. apply endOnly_inv in He as [_ He].
  unfold passive. rewrite He. reflexivity.
Qed.

Lemma splice_replaces_interior_witness :
  getSplicedFile 10 (jsSnippet "id-one")
    (File.mk "doc.md"
       ["x"; "<!--START SNIPSTART id-one-->"; "old1"; "old2"; "<!--END-->";
        "y"])
  = Some (Ok (File.mk "doc.md"
                ["x"; "<!--START SNIPSTART id-one-->"; "```js"; "new"; "```";
                 "<!--END-->"; "y"])).
Proof.
  apply (splice_replaces_interior (jsSnippet "id-one") "doc.md"
           ["x"] ["old1"; "old2"] ["y"]
           "<!--START SNIPSTART id-one-->" "<!--END-->" 10);
    try reflexivity.
  simpl. lia.
Defined.

(** C1 fails on the example the specification gives for it: the pattern of
    [extractID] is keyed on the word SNIPSTART and needs a hyphenated id,
    so on the line [<!--START id1-->] the match is [null], indexing it
    throws, and the pass returns no file. *)
Lemma getSplicedFile_spec_example_throws :
  extractID "<!--START id1-->" = None
  /\ getSplicedFile 7 (jsSnippet "id1")
       (File.mk "doc.md"
          ["x"; "<!--START id1-->"; "old1"; "old2"; "<!--END-->"; "y"])
     = Some (Throw TypeError_null_index)
  /\ getSplicedFile 7 (jsSnippet "id1")
       (File.mk "doc.md"
          ["x"; "<!--START id1-->"; "old1"; "old2"; "<!--END-->"; "y"])
     <> Some (Ok (File.mk "doc.md"
                    ["x"; "<!--START id1-->"; "```js"; "new"; "```";
                     "<!--END-->"; "y"])).
Proof.
  split; [vm_compute; reflexivity|].
  split; [vm_compute; reflexivity|].
  vm_compute. discriminate.
Qed.

(** X4.  Where the loop resumes after a replacement.  In a target file
    [pre ++ s :: interior ++ e :: post] whose lines [pre] are passive, whose
    line [s] is an insertion-start line carrying the snippet's id and whose
    line [e] is the insertion-end line that closes it, the pass replaces
    [interior] by the snippet's lines and goes on at the old index of [e]
    plus one, which in the new array is position [length interior + 1] of
    [Snippet.lines snippet ++ e :: post].  When the lines from that position
    on are passive, the pass returns the file with exactly the interior
    replaced.  Nothing is asked of the lines before that position: after a
    shortening replacement the first lines of [post] are never read,
    whatever they contain. *)
Theorem splice_resumes_past_old_end (snippet : Snippet.t) (name : string)
    (pre interior post : list string) (s e : string) (fuel : nat) :
  forallb (passive snippet) pre = true ->
  startOnly writeStart writeEnd s = true ->
  extractID s = Some (Snippet.id snippet) ->
  forallb (passive snippet) interior = true ->
  forallb (fun l => negb (JS.includes l writeEnd)) interior = true ->
  endOnly writeStart writeEnd e = true ->
  forallb (passive snippet)
    (skipn (S (length interior)) (Snippet.lines snippet ++ e :: post)) = true ->
  length (pre ++ s :: interior ++ e :: post)
  + length (Snippet.lines snippet) < fuel ->
  getSplicedFile fuel snippet
    (File.mk name (pre ++ s :: interior ++ e :: post))
  = Some (Ok (File.mk name
                (pre ++ s :: Snippet.lines snippet ++ e :: post))).
Proof. apply getSplicedFile_region_then_rest. Qed.

Lemma splice_resumes_past_old_end_witness :
  getSplicedFile 13 (jsSnippet "id-one")
    (File.mk "d.md"
       ["intro"; "<!--START SNIPSTART id-one-->"; "o1"; "o2"; "o3"; "o4";
        "<!--END-->"; "<!--START oops-->"; "tail"])
  = Some (Ok (File.mk "d.md"
                ["intro"; "<!--START SNIPSTART id-one-->"; "```js"; "new";
                 "```"; "<!--END-->"; "<!--START oops-->"; "tail"])).
Proof.
  apply (splice_resumes_past_old_end (jsSnippet "id-one") "d.md"
           ["intro"] ["o1"; "o2"; "o3"; "o4"] ["<!--START oops-->"; "tail"]
           "<!--START SNIPSTART id-one-->" "<!--END-->" 13);
    try reflexivity.
  simpl. lia.
Defined.

(** ** Malformed markers *)

Lemma extractLine_malformed (ext owner repo : string) (ref : option string)
    (item : FilePath.t) (st : ExtractState) (bad : string) :
  JS.includes bad readStart = true -> extractID bad = None ->
  exists e, extractLine ext owner repo ref item st bad = Throw e.
Proof.
  intros Hs Hid. unfold extractLine, extractID_or_throw.
  rewrite Hs, Hid.
  match goal with
  | |- exists e, bind ?r _ = _ => destruct r as [st2 | e2]
  end; simpl; eauto.
Qed.

Lemma extractLines_malformed (ext owner repo : string) (ref : option string)
    (item : FilePath.t) (pre post : list string) (bad : string)
    (st : ExtractState) :
  JS.includes bad readStart = true -> extractID bad = None ->
  exists e,
    extractLines ext owner repo ref item (pre ++ bad :: post) st = Throw e.
Proof.
  intros Hs Hid. rewrite extractLines_app.
  destruct (extractLines ext owner repo ref item pre st) as [st' | e].
  - rewrite bind_ok, extractLines_cons.
    destruct (extractLine_malformed ext owner repo ref item st' bad Hs Hid)
      as [e He].
    rewrite He. simpl. eauto.
  - simpl. eauto.
Qed.

(** After properly paired capture regions the extractor is idle and its
    counter is the length of [fileSnips]: a capture-start line without an
    extractable id is not pushed anywhere, and [extractID] throws on it. *)
Lemma extractFile_malformed_after_paired (owner repo : string)
    (ref : option string) (item : FilePath.t) (sgs : list seg)
    (post : list string) (bad : string) :
  forallb wfCaptureSeg sgs = true ->
  JS.includes bad readStart = true -> extractID bad = None ->
  extractFile owner repo ref item (render sgs ++ bad :: post)
  = Throw TypeError_null_index.
Proof.
  intros Hwf Hs Hid. unfold extractFile.
  set (ext := determineExtension (FilePath.name item)).
  rewrite extractLines_app.
  rewrite (extractLines_wf_init ext owner repo ref item sgs Hwf), bind_ok.
  rewrite extractLines_cons.
  unfold extractLine, extractID_or_throw. rewrite Hs, Hid.
  destruct (JS.includes bad readEnd); reflexivity.
Qed.

Lemma spliceBody_malformed (snippet : Snippet.t) (st : SpliceState)
    (bad : string) :
  JS.includes bad writeStart = true -> extractID bad = None ->
  spliceBody snippet st bad = Throw TypeError_null_index.
Proof.
  intros Hs Hid. unfold spliceBody, extractID_or_throw.
  rewrite Hs, Hid. reflexivity.
Qed.

(** With no region pending, over lines of which none is an insertion-start
    line carrying the snippet's id, the loop reaches the first
    insertion-start line without an extractable id and throws there. *)
Lemma spliceLoop_until_malformed (snippet : Snippet.t)
    (pre front post : list string) (bad : string) (start fuel : nat) :
  JS.includes bad writeStart = true -> extractID bad = None ->
  forallb (fun l => negb (JS.includes l writeStart && carriesId snippet l))
    pre = true ->
  length pre < fuel ->
  spliceLoop fuel snippet
    (mkSplice (front ++ pre ++ bad :: post) (length front)
              (S (length front)) false start)
  = Some (Throw TypeError_null_index).
Proof.
  intros Hs Hid. revert front fuel.
  induction pre as [|l pre IH]; intros front fuel Hpre Hfuel;
    (destruct fuel as [|fuel]; [simpl in Hfuel; lia|]);
    cbn [spliceLoop]; unfold spliceNext; cbn [s_lines s_idx app];
    rewrite nth_error_middle.
  - rewrite spliceBody_malformed by assumption. reflexivity.
  - cbn [forallb] in Hpre. apply andb_true_iff in Hpre as [Hl Hpre].
    apply negb_true_iff in Hl.
    assert (Hcases : (JS.includes l writeStart = true /\ extractID l = None)
                     \/ passive snippet l = true).
    { unfold passive. unfold carriesId in Hl.
      destruct (JS.includes l writeStart); [|right; reflexivity].
      destruct (extractID l) as [id|]; [right | left; auto].
      simpl in Hl. simpl. now rewrite Hl. }
    destruct Hcases as [[Hls Hlid] | Hp].
    + rewrite spliceBody_malformed by assumption. reflexivity.
    + rewrite spliceBody_passive by (auto || (left; reflexivity)).
      cbn [s_lines s_idx fileLineNumber lookForStop spliceStart].
      specialize (IH (front ++ [l]) fuel Hpre).
      rewrite length_app in IH. cbn [length] in IH.
      rewrite <- app_assoc in IH. cbn [app] in IH.
      rewrite Nat.add_1_r in IH. apply IH. simpl in Hfuel. lia.
Qed.

(** C8, as the code has it.  A marker line whose id the pattern cannot
    extract makes the processing of its file throw, and nothing labels the
    failure.  Extraction of a source file that contains such a capture-start
    line always throws and returns no snippet list; when the lines before it
    are properly paired capture regions with no marker outside them, the
    exception is the [TypeError] of indexing [null] in [extractID].  The
    splice pass over a target file throws that same [TypeError] when such an
    insertion-start line is preceded by no insertion-start line carrying the
    snippet's id.  The exception value names neither the file nor the
    line. *)
Theorem malformed_marker_throws (owner repo : string) (ref : option string)
    (item : FilePath.t) (sgs : list seg) (snippet : Snippet.t) (name : string)
    (pre post : list string) (bad : string) (fuel : nat) :
  extractID bad = None ->
  (JS.includes bad readStart = true ->
   (exists e, extractFile owner repo ref item (pre ++ bad :: post) = Throw e)
   /\ (forallb wfCaptureSeg sgs = true ->
       extractFile owner repo ref item (render sgs ++ bad :: post)
       = Throw TypeError_null_index))
  /\ (JS.includes bad writeStart = true ->
      forallb (fun l => negb (JS.includes l writeStart && carriesId snippet l))
        pre = true ->
      length pre < fuel ->
      getSplicedFile fuel snippet (File.mk name (pre ++ bad :: post))
      = Some (Throw TypeError_null_index)).
Proof.
  intros Hid. split.
  - intros Hs. split.
    + unfold extractFile.
      destruct (extractLines_malformed
                  (determineExtension (FilePath.name item)) owner repo ref item
                  pre post bad (mkExtract false 0 []) Hs Hid) as [e He].
      rewrite He. simpl. eauto.
    + intros Hwf. apply extractFile_malformed_after_paired; assumption.
  - intros Hs Hpre Hfuel.
    unfold getSplicedFile, spliceInit. cbn [File.lines File.filename].
    pose proof (spliceLoop_until_malformed snippet pre [] post bad 0 fuel
                  Hs Hid Hpre Hfuel) as Hloop.
    cbn [app length] in Hloop. rewrite Hloop. reflexivity.
Qed.

Lemma malformed_marker_throws_witness :
  (exists e,
     extractFile "acme" "widgets" None (FilePath.mk "bar.go" "/pkg" true)
       ["intro"; "<!--START oops--> @@@START oops"; "rest"] = Throw e)
  /\ extractFile "acme" "widgets" None (FilePath.mk "bar.go" "/pkg" true)
       ["top"; "@@@START SNIPSTART ab-cd"; "x"; "@@@END";
        "<!--START oops--> @@@START oops"; "rest"]
     = Throw TypeError_null_index
  /\ getSplicedFile 2 (jsSnippet "id-one")
       (File.mk "doc.md" ["intro"; "<!--START oops--> @@@START oops"; "rest"])
     = Some (Throw TypeError_null_index).
Proof.
  destruct (malformed_marker_throws "acme" "widgets" None
              (FilePath.mk "bar.go" "/pkg" true)
              [Plain "top"; Region "@@@START SNIPSTART ab-cd" ["x"] "@@@END"]
              (jsSnippet "id-one")
              "doc.md" ["intro"] ["rest"] "<!--START oops--> @@@START oops" 2
              eq_refl) as [Hx Hs].
  destruct (Hx eq_refl) as [Hany Hpaired].
  split; [exact Hany|].
  split; [exact (Hpaired eq_refl)|].
  apply Hs; [reflexivity | reflexivity | apply le_n].
Defined.

(** C8 does not hold as stated.  First, the failure is not labeled: two
    target files with different names, malformed at different lines,
    fail with the very same exception value, which therefore identifies
    neither.  Second, a malformed insertion-start line is not always
    reached: after a replacement that shortens the file the line slides
    under the loop index, and the pass returns normally. *)
Lemma malformed_marker_unlabeled_or_skipped :
  (getSplicedFile 9 (jsSnippet "id-one")
     (File.mk "a.md" ["<!--START oops-->"; "<!--END-->"])
   = Some (Throw TypeError_null_index)
   /\ getSplicedFile 9 (jsSnippet "id-one")
        (File.mk "b.md" ["x"; "y"; "<!--START oops-->"; "<!--END-->"])
      = Some (Throw TypeError_null_index))
  /\ (extractID "<!--START oops-->" = None
      /\ getSplicedFile 9 (jsSnippet "id-one")
           (File.mk "c.md"
              ["<!--START SNIPSTART id-one-->"; "o1"; "o2"; "o3"; "o4";
               "<!--END-->"; "<!--START oops-->"; "<!--END-->"])
         = Some (Ok (File.mk "c.md"
                       ["<!--START SNIPSTART id-one-->"; "```js"; "new";
                        "```"; "<!--END-->"; "<!--START oops-->";
                        "<!--END-->"]))).
Proof. repeat split; vm_compute; reflexivity. Qed.

(** ** The splice pass on well-formed files: invariant and termination *)

Lemma render_app (A B : list seg) : render (A ++ B) = render A ++ render B.
Proof. unfold render. apply flat_map_app. Qed.

Lemma render_region (A B : list seg) (s e : string) (body : list string) :
  render (A ++ Region s body e :: B)
  = render A ++ s :: body ++ e :: render B.
Proof.
  rewrite render_app. f_equal. unfold render. simpl.
  rewrite <- app_assoc. reflexivity.
Qed.

Lemma skeleton_region (A B : list seg) (s e : string) (b1 b2 : list string) :
  skeleton (A ++ Region s b1 e :: B) = skeleton (A ++ Region s b2 e :: B).
Proof. unfold skeleton. rewrite !map_app. reflexivity. Qed.

Lemma wf_region_inv (A B : list seg) (s e : string) (body : list string) :
  forallb wfInsertionSeg (A ++ Region s body e :: B) = true ->
  forallb wfInsertionSeg A = true /\ forallb wfInsertionSeg B = true
  /\ startOnly writeStart writeEnd s = true /\ hasID s = true
  /\ forallb (markerFree writeStart writeEnd) body = true
  /\ endOnly writeStart writeEnd e = true.
Proof.
  rewrite forallb_app. cbn [forallb]. intros H.
  apply andb_true_iff in H as [HA H].
  apply andb_true_iff in H as [Hr HB].
  unfold wfInsertionSeg, flatInsertionSeg in Hr.
  apply andb_true_iff in Hr as [Hr Hid].
  apply andb_true_iff in Hr as [Hr He].
  apply andb_true_iff in Hr as [Hs Hb].
  auto 6.
Qed.

Lemma wf_region_intro (A B : list seg) (s e : string) (body : list string) :
  forallb wfInsertionSeg A = true -> forallb wfInsertionSeg B = true ->
  startOnly writeStart writeEnd s = true -> hasID s = true ->
  forallb (markerFree writeStart writeEnd) body = true ->
  endOnly writeStart writeEnd e = true ->
  forallb wfInsertionSeg (A ++ Region s body e :: B) = true.
Proof.
  intros HA HB Hs Hid Hb He.
  rewrite forallb_app. cbn [forallb]. rewrite HA, HB.
  unfold wfInsertionSeg, flatInsertionSeg. rewrite Hs, Hid, Hb, He.
  reflexivity.
Qed.

Lemma countStart_app (l1 l2 : list string) :
  countStart (l1 ++ l2) = countStart l1 + countStart l2.
Proof. unfold countStart. rewrite filter_app, length_app. reflexivity. Qed.

Lemma countStart_cons (l : string) (ls : list string) :
  countStart (l :: ls)
  = (if JS.includes l writeStart then 1 else 0) + countStart ls.
Proof.
  unfold countStart. simpl. destruct (JS.includes l writeStart); reflexivity.
Qed.

Lemma countStart_markerFree (ls : list string) :
  forallb (markerFree writeStart writeEnd) ls = true -> countStart ls = 0.
Proof.
  induction ls as [|l ls IH]; intros H; [reflexivity|].
  simpl in H. apply andb_true_iff in H as [Hl H].
  apply markerFree_inv in Hl as [Hs _].
  rewrite countStart_cons, Hs, (IH H). reflexivity.
Qed.

Lemma countStart_skipn_le (n : nat) (ls : list string) :
  countStart (skipn n ls) <= countStart ls.
Proof.
  revert n. induction ls as [|l ls IH]; intros [|n]; simpl; try lia.
  rewrite countStart_cons. specialize (IH n). lia.
Qed.

(** A line of a well-formed file either carries no insertion-start marker
    or is the start line of one of its regions. *)
Lemma render_classify (sgs : list seg) :
  forallb wfInsertionSeg sgs = true ->
  forall (i : nat) (line : string),
    nth_error (render sgs) i = Some line ->
    JS.includes line writeStart = false
    \/ exists A s body e B,
         sgs = A ++ Region s body e :: B /\ i = length (render A)
         /\ line = s.
Proof.
  induction sgs as [|sg sgs IH]; intros Hwf i line Hn.
  - destruct i; discriminate.
  - cbn [forallb] in Hwf. apply andb_true_iff in Hwf as [Hsg Hwf].
    specialize (IH Hwf).
    destruct sg as [l | s body e].
    + unfold render in Hn. cbn [flat_map renderSeg app] in Hn.
      fold (render sgs) in Hn.
      destruct i as [|i]; simpl in Hn.
      * injection Hn as <-. left.
        unfold wfInsertionSeg, flatInsertionSeg in Hsg.
        rewrite andb_true_r in Hsg. now apply negb_true_iff in Hsg.
      * destruct (IH i line Hn) as [Hl | [A [s [body [e [B [-> [-> ->]]]]]]]].
        -- left. exact Hl.
        -- right. exists (Plain l :: A), s, body, e, B.
           split; [reflexivity|]. split; [|reflexivity].
           unfold render. cbn [flat_map renderSeg app length]. reflexivity.
    + destruct (wf_region_inv [] sgs s e body) as [_ [_ [Hs [Hid [Hb He]]]]].
      { cbn [app forallb]. rewrite Hsg, Hwf. reflexivity. }
      change (render (Region s body e :: sgs))
        with (render ([] ++ Region s body e :: sgs)) in Hn.
      rewrite render_region in Hn. cbn [render flat_map app] in Hn.
      fold (render sgs) in Hn.
      destruct i as [|i]; simpl in Hn.
      * injection Hn as <-. right. exists [], s, body, e, sgs.
        split; [reflexivity|]. split; reflexivity.
      * destruct (Nat.lt_ge_cases i (length body)) as [Hlt | Hge].
        -- rewrite nth_error_app1 in Hn by exact Hlt.
           left. pose proof (forallb_nth_error _ _ _ _ Hb Hn) as Hm.
           now apply markerFree_inv in Hm as [Hm _].
        -- rewrite nth_error_app2 in Hn by exact Hge.
           destruct (i - length body) as [|k] eqn:Hk; simpl in Hn.
           ++ injection Hn as <-. left.
              now apply endOnly_inv in He as [_ He].
           ++ destruct (IH k line Hn)
                as [Hl | [A [s' [body' [e' [B [-> [-> ->]]]]]]]].
              ** left. exact Hl.
              ** right. exists (Region s body e :: A), s', body', e', B.
                 split; [reflexivity|]. split; [|reflexivity].
                 unfold render. cbn [flat_map renderSeg]. fold (render A).
                 simpl. rewrite !length_app. simpl. lia.
Qed.

Lemma measure_advance (snippet : Snippet.t) (lines : list string)
    (idx fln fln' start start' : nat) (flag flag' : bool) (line : string) :
  nth_error lines idx = Some line ->
  (if flag' then 1 else 0)
  <= (if JS.includes line writeStart then 1 else 0) + (if flag then 1 else 0) ->
  passMeasure snippet (mkSplice lines (S idx) fln' flag' start')
  < passMeasure snippet (mkSplice lines idx fln flag start).
Proof.
  intros Hn Hf. unfold passMeasure. cbn [s_lines s_idx lookForStop].
  rewrite (skipn_nth_error _ _ _ Hn), countStart_cons.
  assert (Hlt : idx < length lines) by (apply nth_error_Some; congruence).
  set (K := S (length (Snippet.lines snippet))).
  set (c := countStart (skipn (S idx) lines)).
  assert (Hm : K * (c + (if flag' then 1 else 0))
               <= K * ((if JS.includes line writeStart then 1 else 0) + c
                       + (if flag then 1 else 0)))
    by (apply Nat.mul_le_mono_l; lia).
  lia.
Qed.

(** One turn of the loop on a well-formed file, for a snippet whose lines
    carry no insertion marker: the body does not throw, the invariant is
    kept and the measure decreases. *)
Lemma passStep (sk : list seg) (snippet : Snippet.t) (st : SpliceState)
    (line : string) :
  markerFreeSnippet snippet = true ->
  passInv sk st ->
  nth_error (s_lines st) (s_idx st) = Some line ->
  exists st',
    spliceBody snippet st line = Ok st' /\ passInv sk st'
    /\ passMeasure snippet st' < passMeasure snippet st.
Proof.
  intros HL [Hfln [sgs [Hwf [Hr [Hsk Hflag]]]]] Hn.
  destruct st as [lines idx fln flag start].
  cbn [s_lines s_idx fileLineNumber lookForStop spliceStart] in *.
  subst fln. destruct flag.
  - (* inside a region whose start was recorded *)
    destruct (Hflag eq_refl) as [A [s [body [e [B [Hsgs [Hst [Hlo Hhi]]]]]]]].
    subst sgs start.
    destruct (wf_region_inv _ _ _ _ _ Hwf) as [HA [HB [Hs [Hid [Hb He]]]]].
    rewrite render_region in Hr. subst lines.
    destruct (Nat.lt_ge_cases idx (length (render A) + S (length body)))
      as [Hin | Hat].
    + (* an interior line *)
      assert (Hline : nth_error body (idx - S (length (render A))) = Some line).
      { replace (render A ++ s :: body ++ e :: render B)
          with ((render A ++ [s]) ++ body ++ e :: render B) in Hn
          by (rewrite <- app_assoc; reflexivity).
        rewrite nth_error_app2 in Hn by (rewrite length_app; simpl; lia).
        rewrite length_app in Hn. cbn [length] in Hn.
        rewrite nth_error_app1 in Hn by lia.
        rewrite Nat.add_1_r in Hn. exact Hn. }
      pose proof (forallb_nth_error _ _ _ _ Hb Hline) as Hm.
      apply markerFree_inv in Hm as [Hms Hme].
      eexists. split; [|split].
      * apply spliceBody_passive.
        -- unfold passive. rewrite Hms. reflexivity.
        -- right. exact Hme.
      * split; [reflexivity|].
        exists (A ++ Region s body e :: B).
        cbn [s_lines s_idx lookForStop spliceStart].
        split; [exact Hwf|]. split; [apply render_region|].
        split; [exact Hsk|]. intros _.
        exists A, s, body, e, B. repeat split; lia.
      * cbn [s_lines s_idx fileLineNumber lookForStop spliceStart].
        apply measure_advance with (line := line); [exact Hn|].
        rewrite Hms. simpl. lia.
    + (* the end line of the region *)
      assert (Hidx : idx = length (render A) + S (length body)) by lia.
      assert (Hline : line = e).
      { replace (render A ++ s :: body ++ e :: render B)
          with ((render A ++ s :: body) ++ e :: render B) in Hn
          by (rewrite <- app_assoc; reflexivity).
        replace idx with (length (render A ++ s :: body)) in Hn
          by (rewrite length_app; simpl; lia).
        rewrite nth_error_middle in Hn. congruence. }
      subst line.
      eexists. split; [|split].
      * apply spliceBody_end; [exact He | reflexivity].
      * cbn [s_lines s_idx fileLineNumber lookForStop spliceStart].
        rewrite Hidx, spliceFile_region.
        split; [reflexivity|].
        exists (A ++ Region s (Snippet.lines snippet) e :: B).
        cbn [s_lines s_idx lookForStop spliceStart].
        split; [apply wf_region_intro; assumption|].
        split; [apply render_region|].
        split; [rewrite <- Hsk; apply skeleton_region|].
        intros Hfalse. discriminate.
      * unfold passMeasure.
        cbn [s_lines s_idx fileLineNumber lookForStop spliceStart].
        rewrite (skipn_nth_error _ _ _ Hn), countStart_cons.
        apply endOnly_inv in He as [He Hes]. rewrite Hes.
        subst idx. rewrite spliceFile_region.
        set (L := Snippet.lines snippet).
        set (i := length (render A) + S (length body)).
        assert (Hrest : skipn (S i) (render A ++ s :: body ++ e :: render B)
                        = render B).
        { replace (render A ++ s :: body ++ e :: render B)
            with ((render A ++ s :: body ++ [e]) ++ render B)
            by (rewrite <- !app_assoc; cbn [app];
                rewrite <- app_assoc; reflexivity).
          apply skipn_exact. subst i.
          rewrite length_app. cbn [length]. rewrite length_app.
          cbn [length]. lia. }
        rewrite Hrest.
        assert (Hc : countStart
                       (skipn (S i) (render A ++ s :: L ++ e :: render B))
                     <= countStart (render B)).
        { replace (render A ++ s :: L ++ e :: render B)
            with ((render A ++ [s]) ++ L ++ e :: render B)
            by (rewrite <- app_assoc; reflexivity).
          rewrite skipn_past
            by (subst i; rewrite length_app; cbn [length]; lia).
          etransitivity; [apply countStart_skipn_le|].
          rewrite countStart_app, countStart_cons, Hes.
          rewrite (countStart_markerFree L HL). simpl. lia. }
        assert (Hlen : length (render A ++ s :: L ++ e :: render B) - S i
                       <= length L + length (render B)).
        { subst i. rewrite !length_app. cbn [length].
          rewrite !length_app. cbn [length]. lia. }
        assert (Hold : length (render A ++ s :: body ++ e :: render B) - i
                       = S (length (render B))).
        { subst i. rewrite !length_app. cbn [length].
          rewrite !length_app. cbn [length]. lia. }
        rewrite Hold.
        set (K := S (length L)).
        set (c := countStart
                    (skipn (S i) (render A ++ s :: L ++ e :: render B))) in *.
        assert (Hm : K * (c + 0) <= K * countStart (render B))
          by (apply Nat.mul_le_mono_l; lia).
        rewrite (Nat.mul_add_distr_l K (0 + countStart (render B)) 1).
        cbn [Nat.add]. subst K. lia.
  - (* no region pending *)
    subst lines.
    destruct (render_classify sgs Hwf idx line Hn)
      as [Hns | [A [s [body [e [B [Hsgs [Hidx Hline]]]]]]]].
    + eexists. split; [|split].
      * apply spliceBody_passive; [|left; reflexivity].
        unfold passive. rewrite Hns. reflexivity.
      * split; [reflexivity|]. exists sgs.
        cbn [s_lines s_idx lookForStop spliceStart].
        repeat split; try assumption. intros Hfalse. discriminate.
      * cbn [s_lines s_idx fileLineNumber lookForStop spliceStart].
        apply measure_advance with (line := line); [exact Hn|]. simpl. lia.
    + subst sgs line.
      destruct (wf_region_inv _ _ _ _ _ Hwf) as [HA [HB [Hs [Hid [Hb He]]]]].
      apply hasID_inv in Hid as [id Hid].
      destruct (String.eqb id (Snippet.id snippet)) eqn:Heq.
      * apply String.eqb_eq in Heq. subst id.
        eexists. split; [|split].
        -- apply spliceBody_start; assumption.
        -- split; [reflexivity|].
           exists (A ++ Region s body e :: B).
           cbn [s_lines s_idx fileLineNumber lookForStop spliceStart].
           repeat split; try assumption.
           intros _. exists A, s, body, e, B.
           repeat split; lia.
        -- cbn [s_lines s_idx fileLineNumber lookForStop spliceStart].
           apply measure_advance with (line := s); [exact Hn|].
           apply startOnly_inv in Hs as [Hs _]. rewrite Hs. simpl. lia.
      * eexists. split; [|split].
        -- apply spliceBody_passive; [|left; reflexivity].
           unfold passive. rewrite Hid, Heq. apply orb_true_r.
        -- split; [reflexivity|].
           exists (A ++ Region s body e :: B).
           cbn [s_lines s_idx lookForStop spliceStart].
           repeat split; try assumption. intros Hfalse. discriminate.
        -- cbn [s_lines s_idx fileLineNumber lookForStop spliceStart].
           apply measure_advance with (line := s); [exact Hn|]. simpl. lia.
Qed.

(** On a well-formed file the loop returns, with any fuel above the
    measure, a well-formed file with the same markers. *)
Lemma spliceLoop_total (sk : list seg) (snippet : Snippet.t) :
  markerFreeSnippet snippet = true ->
  forall (m : nat) (st : SpliceState),
    passInv sk st -> passMeasure snippet st < m ->
    exists lines',
      (forall fuel, m <= fuel ->
                    spliceLoop fuel snippet st = Some (Ok lines'))
      /\ wellFormed sk lines'.
Proof.
  intros HL. induction m as [|m IH]; intros st Hinv Hlt; [lia|].
  destruct (nth_error (s_lines st) (s_idx st)) as [line|] eqn:Hn.
  - destruct (passStep sk snippet st line HL Hinv Hn)
      as [st' [Hbody [Hinv' Hdec]]].
    destruct (IH st' Hinv' ltac:(lia)) as [lines' [Hrun Hwf]].
    exists lines'. split; [|exact Hwf].
    intros [|fuel] Hfuel; [lia|].
    cbn [spliceLoop]. unfold spliceNext. rewrite Hn, Hbody.
    apply Hrun. lia.
  - exists (s_lines st). split.
    + intros [|fuel] Hfuel; [lia|].
      cbn [spliceLoop]. unfold spliceNext. rewrite Hn. reflexivity.
    + destruct Hinv as [_ [sgs [Hwf [Hr [Hsk _]]]]].
      exists sgs. auto.
Qed.

Lemma getSplicedFile_total (snippet : Snippet.t) (f : File.t)
    (d : string * list seg) :
  markerFreeSnippet snippet = true -> describes f d ->
  exists m f',
    (forall fuel, m <= fuel -> getSplicedFile fuel snippet f = Some (Ok f'))
    /\ describes f' d.
Proof.
  intros HL [Hname [sgs [Hwf [Hr Hsk]]]].
  destruct (spliceLoop_total (snd d) snippet HL
              (S (passMeasure snippet (spliceInit (File.lines f))))
              (spliceInit (File.lines f)))
    as [lines' [Hrun Hwf']].
  - split; [reflexivity|]. exists sgs.
    cbn [spliceInit s_lines lookForStop].
    repeat split; try assumption. intros Hfalse. discriminate.
  - lia.
  - eexists. exists (File.mk (File.filename f) lines'). split.
    + intros fuel Hfuel. unfold getSplicedFile.
      rewrite (Hrun fuel Hfuel). reflexivity.
    + split; [exact Hname | exact Hwf'].
Qed.

(** X2.  The splice pass is total on well-formed input: for a target file with
    well-formed insertion regions and a snippet whose lines carry no
    insertion marker, the loop over the array it mutates terminates
    without throwing, and returns a well-formed file with the same name
    and the same marker lines. *)
Theorem splice_pass_returns_well_formed (snippet : Snippet.t) (name : string)
    (sgs : list seg) :
  markerFreeSnippet snippet = true ->
  forallb wfInsertionSeg sgs = true ->
  exists m sgs',
    (forall fuel, m <= fuel ->
       getSplicedFile fuel snippet (File.mk name (render sgs))
       = Some (Ok (File.mk name (render sgs'))))
    /\ forallb wfInsertionSeg sgs' = true
    /\ skeleton sgs' = skeleton sgs.
Proof.
  intros HL Hwf.
  destruct (getSplicedFile_total snippet (File.mk name (render sgs))
              (name, skeleton sgs) HL) as [m [f' [Hrun [Hname Hwf']]]].
  - split; [reflexivity|]. exists sgs. auto.
  - destruct Hwf' as [sgs' [Hwf' [Hr Hsk]]].
    destruct f' as [name' lines']. cbn [File.filename File.lines fst snd] in *.
    subst name' lines'. exists m, sgs'. auto.
Qed.

Lemma splice_pass_returns_well_formed_witness :
  exists m sgs',
    (forall fuel, m <= fuel ->
       getSplicedFile fuel (jsSnippet "id-one")
         (File.mk "doc.md"
            ["<!--START SNIPSTART id-one-->"; "o1"; "o2"; "o3"; "o4";
             "<!--END-->"; "<!--START SNIPSTART id-one-->"; "stale";
             "<!--END-->"])
       = Some (Ok (File.mk "doc.md" (render sgs'))))
    /\ forallb wfInsertionSeg sgs' = true
    /\ skeleton sgs'
       = [Region "<!--START SNIPSTART id-one-->" [] "<!--END-->";
          Region "<!--START SNIPSTART id-one-->" [] "<!--END-->"].
Proof.
  exact (splice_pass_returns_well_formed (jsSnippet "id-one") "doc.md"
           [Region "<!--START SNIPSTART id-one-->" ["o1"; "o2"; "o3"; "o4"]
                   "<!--END-->";
            Region "<!--START SNIPSTART id-one-->" ["stale"] "<!--END-->"]
           eq_refl eq_refl).
Defined.

Lemma spliceEach_total (snippet : Snippet.t) (files : list File.t)
    (ds : list (string * list seg)) :
  markerFreeSnippet snippet = true -> Forall2 describes files ds ->
  exists m files',
    (forall fuel, m <= fuel ->
                  spliceEach fuel snippet files = Some (Ok files'))
    /\ Forall2 describes files' ds.
Proof.
  intros HL Hall. induction Hall as [|f d files ds Hf Hall IH].
  - exists 0, []. split; [reflexivity | constructor].
  - destruct (getSplicedFile_total snippet f d HL Hf) as [m1 [f' [H1 Hf']]].
    destruct IH as [m2 [files' [H2 Hall']]].
    exists (Nat.max m1 m2), (f' :: files'). split.
    + intros fuel Hfuel. cbn [spliceEach].
      rewrite (H1 fuel) by lia. rewrite (H2 fuel) by lia. reflexivity.
    + constructor; assumption.
Qed.

Lemma spliceSnippets_total (snippets : list Snippet.t) :
  forallb markerFreeSnippet snippets = true ->
  forall (files : list File.t) (ds : list (string * list seg)),
    Forall2 describes files ds ->
    exists m files',
      (forall fuel, m <= fuel ->
                    spliceSnippets fuel snippets files = Some (Ok files'))
      /\ Forall2 describes files' ds.
Proof.
  induction snippets as [|sn snippets IH]; intros HL files ds Hall.
  - exists 0, files. split; [reflexivity | exact Hall].
  - cbn [forallb] in HL. apply andb_true_iff in HL as [Hsn HL].
    destruct (spliceEach_total sn files ds Hsn Hall) as [m1 [files1 [H1 Hall1]]].
    destruct (IH HL files1 ds Hall1) as [m2 [files2 [H2 Hall2]]].
    exists (Nat.max m1 m2), files2. split; [|exact Hall2].
    intros fuel Hfuel. cbn [spliceSnippets].
    rewrite (H1 fuel) by lia. apply H2. lia.
Qed.

Lemma spliceTimes_total (snippets : list Snippet.t) (n : nat) :
  forallb markerFreeSnippet snippets = true ->
  forall (files : list File.t) (ds : list (string * list seg)),
    Forall2 describes files ds ->
    exists m files',
      (forall fuel, m <= fuel ->
                    spliceTimes n fuel snippets files = Some (Ok files'))
      /\ Forall2 describes files' ds.
Proof.
  intros HL. induction n as [|n IH]; intros files ds Hall.
  - exists 0, files. split; [reflexivity | exact Hall].
  - destruct (spliceSnippets_total snippets HL files ds Hall)
      as [m1 [files1 [H1 Hall1]]].
    destruct (IH files1 ds Hall1) as [m2 [files2 [H2 Hall2]]].
    exists (Nat.max m1 m2), files2. split; [|exact Hall2].
    intros fuel Hfuel. cbn [spliceTimes].
    rewrite (H1 fuel) by lia. apply H2. lia.
Qed.

Lemma wf_is_flat (sgs : list seg) :
  forallb wfInsertionSeg sgs = true -> forallb flatInsertionSeg sgs = true.
Proof.
  induction sgs as [|sg sgs IH]; cbn [forallb]; intros H; [reflexivity|].
  apply andb_true_iff in H as [Hsg H].
  unfold wfInsertionSeg in Hsg. apply andb_true_iff in Hsg as [Hsg _].
  rewrite Hsg, (IH H). reflexivity.
Qed.

Lemma clear_described (f : File.t) (d : string * list seg) :
  describes f d -> getClearedFile f = fileOf d.
Proof.
  intros [Hname [sgs [Hwf [Hr Hsk]]]].
  destruct f as [name lines]. cbn [File.filename File.lines] in *.
  subst lines name.
  unfold getClearedFile. cbn [File.filename File.lines].
  rewrite (clearLines_render sgs (wf_is_flat sgs Hwf)).
  unfold fileOf. fold (skeleton sgs). rewrite Hsk.
  destruct d; reflexivity.
Qed.

Lemma clearSnippets_described (files : list File.t)
    (ds : list (string * list seg)) :
  Forall2 describes files ds -> clearSnippets files = map fileOf ds.
Proof.
  intros Hall. induction Hall as [|f d files ds Hf Hall IH].
  - reflexivity.
  - cbn [clearSnippets map]. rewrite (clear_described f d Hf).
    f_equal. exact IH.
Qed.

Lemma describes_fileOf (ds : list (string * list seg)) :
  forallb (fun d => forallb wfInsertionSeg (snd d)) ds = true ->
  Forall2 describes (map fileOf ds)
          (map (fun d => (fst d, skeleton (snd d))) ds).
Proof.
  induction ds as [|d ds IH]; cbn [forallb map]; intros H; [constructor|].
  apply andb_true_iff in H as [Hd H].
  constructor; [|exact (IH H)].
  split; [reflexivity|]. exists (snd d). auto.
Qed.

(** C5, as the code has it.  For target files with well-formed insertion
    regions and snippets whose formatted lines carry no insertion marker,
    any number [n] of runs of [spliceSnippets] with the same snippets
    returns (with enough fuel, and with any larger fuel the same files),
    and clearing the result gives exactly what clearing the original files
    gives: the same file names and marker lines, every region empty. *)
Theorem clear_after_splices (ds : list (string * list seg))
    (snippets : list Snippet.t) (n : nat) :
  forallb (fun d => forallb wfInsertionSeg (snd d)) ds = true ->
  forallb markerFreeSnippet snippets = true ->
  exists m files',
    (forall fuel, m <= fuel ->
       spliceTimes n fuel snippets (map fileOf ds) = Some (Ok files'))
    /\ clearSnippets files' = clearSnippets (map fileOf ds)
    /\ clearSnippets files'
       = map (fun d => fileOf (fst d, skeleton (snd d))) ds.
Proof.
  intros Hwf HL.
  pose proof (describes_fileOf ds Hwf) as Hinit.
  destruct (spliceTimes_total snippets n HL _ _ Hinit)
    as [m [files' [Hrun Hfinal]]].
  exists m, files'. split; [exact Hrun|].
  rewrite (clearSnippets_described _ _ Hfinal).
  rewrite (clearSnippets_described _ _ Hinit).
  rewrite map_map. split; reflexivity.
Qed.

Lemma clear_after_splices_witness :
  exists m files',
    (forall fuel, m <= fuel ->
       spliceTimes 2 fuel [jsSnippet "id-one"; jsSnippet "id-two"]
         [File.mk "doc.md"
            ["x"; "<!--START SNIPSTART id-one-->"; "old1"; "old2";
             "<!--END-->"; "y"; "<!--START SNIPSTART id-two-->"; "<!--END-->"]]
       = Some (Ok files'))
    /\ clearSnippets files'
       = clearSnippets
           [File.mk "doc.md"
              ["x"; "<!--START SNIPSTART id-one-->"; "old1"; "old2";
               "<!--END-->"; "y"; "<!--START SNIPSTART id-two-->";
               "<!--END-->"]]
    /\ clearSnippets files'
       = [File.mk "doc.md"
            ["x"; "<!--START SNIPSTART id-one-->"; "<!--END-->"; "y";
             "<!--START SNIPSTART id-two-->"; "<!--END-->"]].
Proof.
  exact (clear_after_splices
           [("doc.md",
             [Plain "x";
              Region "<!--START SNIPSTART id-one-->" ["old1"; "old2"]
                     "<!--END-->";
              Plain "y";
              Region "<!--START SNIPSTART id-two-->" [] "<!--END-->"])]
           [jsSnippet "id-one"; jsSnippet "id-two"] 2 eq_refl eq_refl).
Defined.

(** The files of the witness, computed: two runs of the splice leave both
    regions holding the snippet. *)
Example spliceTimes_twice :
  spliceTimes 2 20 [jsSnippet "id-one"; jsSnippet "id-two"]
    [File.mk "doc.md"
       ["x"; "<!--START SNIPSTART id-one-->"; "old1"; "old2"; "<!--END-->";
        "y"; "<!--START SNIPSTART id-two-->"; "<!--END-->"]]
  = Some (Ok [File.mk "doc.md"
                ["x"; "<!--START SNIPSTART id-one-->"; "```js"; "new"; "```";
                 "<!--END-->"; "y"; "<!--START SNIPSTART id-two-->";
                 "```js"; "new"; "```"; "<!--END-->"]]).
Proof. vm_compute. reflexivity. Qed.

(** C5 does not hold of every snippet set.  A captured line is inserted
    verbatim, and nothing escapes a marker inside it: when a snippet holds
    a line that contains the insertion-end marker, clearing the spliced
    file stops omitting at that line and keeps the rest of the snippet, so
    the region does not end up empty. *)
Lemma clear_after_splice_keeps_marker_lines :
  spliceTimes 1 10 [htmlSnippet]
    [File.mk "doc.md" ["<!--START SNIPSTART ab-cd-->"; "<!--END-->"]]
  = Some (Ok [File.mk "doc.md"
                ["<!--START SNIPSTART ab-cd-->"; "```html";
                 "<!--END of header-->"; "```"; "<!--END-->"]])
  /\ clearSnippets
       [File.mk "doc.md"
          ["<!--START SNIPSTART ab-cd-->"; "```html";
           "<!--END of header-->"; "```"; "<!--END-->"]]
     = [File.mk "doc.md"
          ["<!--START SNIPSTART ab-cd-->"; "<!--END of header-->"; "```";
           "<!--END-->"]]
  /\ clearSnippets
       [File.mk "doc.md" ["<!--START SNIPSTART ab-cd-->"; "<!--END-->"]]
     = [File.mk "doc.md" ["<!--START SNIPSTART ab-cd-->"; "<!--END-->"]].
Proof. repeat split; vm_compute; reflexivity. Qed.

(** * Further properties of the engine *)

(** ** Strings *)

Lemma append_nil_r (a : string) : (a ++ "")%string = a.
Proof. induction a as [|x a IH]; simpl; [reflexivity | now rewrite IH]. Qed.

Lemma length_append (a b : string) :
  String.length (a ++ b) = String.length a + String.length b.
Proof. induction a as [|x a IH]; simpl; [reflexivity | now rewrite IH]. Qed.

Lemma substring_prefix (a b : string) :
  substring 0 (String.length a) (a ++ b) = a.
Proof. induction a as [|x a IH]; simpl; [now destruct b | now rewrite IH]. Qed.

(** Two suffixes of one string that have the same length are equal. *)
Lemma same_length_suffix (p1 p2 s1 s2 : string) :
  (p1 ++ s1)%string = (p2 ++ s2)%string ->
  String.length s1 = String.length s2 ->
  p1 = p2 /\ s1 = s2.
Proof.
  revert p2. induction p1 as [|x p1 IH]; intros [|y p2] H Hlen; simpl in H.
  - auto.
  - exfalso. subst s1. simpl in Hlen. rewrite length_append in Hlen. lia.
  - exfalso. subst s2. simpl in Hlen. rewrite length_append in Hlen. lia.
  - injection H as -> H. destruct (IH p2 H Hlen) as [-> ->]. auto.
Qed.

Lemma prefix_append (a b : string) : String.prefix a (a ++ b) = true.
Proof.
  induction a as [|x a IH]; simpl.
  - now destruct b.
  - destruct (ascii_dec x x) as [_ | Hne]; [exact IH | now elim Hne].
Qed.

Lemma includes_prefix (l x : string) :
  String.prefix x l = true -> JS.includes l x = true.
Proof. intros H. destruct l; simpl in *; rewrite H; reflexivity. Qed.

Lemma includes_append (pre x post : string) :
  JS.includes (pre ++ x ++ post) x = true.
Proof.
  induction pre as [|c pre IH].
  - change ("" ++ x ++ post)%string with (x ++ post)%string.
    apply includes_prefix. apply prefix_append.
  - simpl append. cbn [JS.includes]. rewrite IH. apply orb_true_r.
Qed.

Lemma allChars_append (p : ascii -> bool) (a b : string) :
  allChars p (a ++ b) = allChars p a && allChars p b.
Proof.
  induction a as [|x a IH]; simpl; [reflexivity|].
  rewrite IH. apply andb_assoc.
Qed.

Lemma allChars_weaken (p q : ascii -> bool) (s : string) :
  (forall c, p c = true -> q c = true) ->
  allChars p s = true -> allChars q s = true.
Proof.
  intros Hpq. induction s as [|c s IH]; simpl; [reflexivity|].
  intros H. apply andb_true_iff in H as [Hc Hs].
  rewrite (Hpq c Hc), (IH Hs). reflexivity.
Qed.

(** ** The matcher only returns texts of the pattern *)

Lemma rmatch_sound {A : Type} (r : Regex.regex) :
  forall (fuel : nat) (p : Regex.pos) (k : Regex.pos -> option A) (x : A),
    Regex.rmatch r fuel p k = Some x ->
    exists w p',
      accepts r w /\ snd p = (w ++ snd p')%string /\ k p' = Some x.
Proof.
  induction r as [c | r1 IH1 r2 IH2 | r0 IH0 |]; intros fuel p k x H.
  - simpl in H. destruct (snd p) as [|a rest] eqn:Hp; [discriminate|].
    destruct (c a) eqn:Hc; [|discriminate].
    exists (String a EmptyString), (Some a, rest).
    split; [now constructor|]. split; [reflexivity | exact H].
  - simpl in H.
    destruct (IH1 _ _ _ _ H) as [w1 [p1 [Ha1 [Hp1 H1]]]].
    destruct (IH2 _ _ _ _ H1) as [w2 [p2 [Ha2 [Hp2 H2]]]].
    exists (w1 ++ w2)%string, p2.
    split; [now constructor|]. split; [|exact H2].
    rewrite Hp1, Hp2, append_assoc. reflexivity.
  - simpl in H.
    match type of H with
    | ?f fuel p = Some x =>
        assert (Hgen : forall n q, f n q = Some x ->
                  exists w p',
                    accepts (Regex.Plus r0) w
                    /\ snd q = (w ++ snd p')%string /\ k p' = Some x)
    end.
    { induction n as [|n IHn]; intros q Hq; [discriminate|].
      simpl in Hq.
      destruct (IH0 _ _ _ _ Hq) as [w1 [p1 [Ha1 [Hp1 H1]]]].
      cbv zeta in H1.
      destruct (String.length (snd p1) <? String.length (snd q))%nat.
      - match type of H1 with
        | match ?e with _ => _ end = _ => destruct e as [y|] eqn:Hy
        end.
        + injection H1 as ->.
          destruct (IHn _ Hy) as [w2 [p2 [Ha2 [Hp2 H2]]]].
          exists (w1 ++ w2)%string, p2.
          split; [now apply acc_plus_more|]. split; [|exact H2].
          rewrite Hp1, Hp2, append_assoc. reflexivity.
        + exists w1, p1. split; [now apply acc_plus_one|]. auto.
      - exists w1, p1. split; [now apply acc_plus_one|]. auto. }
    exact (Hgen fuel p H).
  - simpl in H.
    destruct (xorb _ _); [|discriminate].
    exists EmptyString, p. split; [constructor|]. auto.
Qed.

Lemma matchAt_sound (r : Regex.regex) (p : Regex.pos) (m : string) :
  Regex.matchAt r p = Some m ->
  accepts r m /\ exists rest, snd p = (m ++ rest)%string.
Proof.
  unfold Regex.matchAt. intros H.
  destruct (Regex.rmatch r _ p _) as [p'|] eqn:Hm; [|discriminate].
  destruct (rmatch_sound r _ _ _ _ Hm) as [w [q [Ha [Hp Hq]]]].
  injection Hq as ->. injection H as <-.
  rewrite Hp, length_append, Nat.add_sub, substring_prefix.
  split; [exact Ha | eauto].
Qed.

Lemma positions_nth (s : string) :
  forall (prev : option ascii) (i : nat) (q : Regex.pos),
    nth_error (Regex.positions prev s) i = Some q ->
    exists pre, s = (pre ++ snd q)%string /\ String.length pre = i.
Proof.
  induction s as [|c s IH]; intros prev i q H.
  - destruct i as [|i]; simpl in H.
    + injection H as <-. exists EmptyString. auto.
    + destruct i; discriminate.
  - destruct i as [|i]; simpl in H.
    + injection H as <-. exists EmptyString. auto.
    + destruct (IH _ _ _ H) as [pre [Hs Hl]].
      exists (String c pre). simpl. rewrite <- Hs, Hl. auto.
Qed.

Lemma firstMatchFrom_inv (lb body : Regex.regex) (w : nat)
    (all : list Regex.pos) (m : string) :
  forall (ps : list Regex.pos) (i : nat),
    Regex.firstMatchFrom lb w body all i ps = Some m ->
    exists j p,
      nth_error ps j = Some p
      /\ Regex.lookbehindAt lb w all (i + j) p = true
      /\ Regex.matchAt body p = Some m.
Proof.
  induction ps as [|p ps IH]; intros i H; [discriminate|].
  simpl in H.
  destruct (Regex.lookbehindAt lb w all i p) eqn:Hlb.
  - destruct (Regex.matchAt body p) as [m'|] eqn:Hm.
    + injection H as ->. exists 0, p. rewrite Nat.add_0_r. auto.
    + destruct (IH _ H) as [j [q [Hn [Hl Hq]]]].
      exists (S j), q. rewrite Nat.add_succ_r. auto.
  - destruct (IH _ H) as [j [q [Hn [Hl Hq]]]].
    exists (S j), q. rewrite Nat.add_succ_r. auto.
Qed.

(** *** The texts of the two patterns of [extractID] *)

Lemma accepts_word (w : string) :
  accepts word w -> w <> EmptyString /\ allChars JS.isWord w = true.
Proof.
  unfold word. intros H.
  remember (Regex.Plus (Regex.Class JS.isWord)) as r eqn:Hr.
  induction H as [| | r0 w H _ | r0 w1 w2 H1 _ H2 IH2 |]; try discriminate;
    injection Hr as ->.
  - inversion H as [c a Hc | | | |]; subst. simpl. rewrite Hc.
    split; [discriminate | reflexivity].
  - inversion H1 as [c a Hc | | | |]; subst.
    destruct (IH2 eq_refl) as [_ Hall].
    simpl. rewrite Hc, Hall. split; [discriminate | reflexivity].
Qed.

Lemma accepts_lit (c : ascii) (w : string) :
  accepts (Regex.lit c) w -> w = String c EmptyString.
Proof.
  unfold Regex.lit. intros H. inversion H; subst.
  match goal with
  | Heq : Ascii.eqb _ _ = true |- _ => apply Ascii.eqb_eq in Heq; now subst
  end.
Qed.

Lemma accepts_lits (s : string) (r : Regex.regex) (w : string) :
  accepts (Regex.lits s r) w ->
  exists w', w = (s ++ w')%string /\ accepts r w'.
Proof.
  revert w. induction s as [|c s IH]; intros w H; simpl in H.
  - exists w. auto.
  - inversion H as [| r1 r2 w1 w2 H1 H2 | | |]; subst.
    apply accepts_lit in H1. subst w1.
    destruct (IH _ H2) as [w' [-> Hr]].
    exists w'. auto.
Qed.

Lemma accepts_idLookbehind (w : string) :
  accepts idLookbehind w ->
  exists c, w = ("SNIPSTART" ++ String c "")%string /\ JS.isSpace c = true.
Proof.
  unfold idLookbehind. intros H.
  inversion H as [| r1 r2 w1 w2 H1 H2 | | |]; subst.
  inversion H1; subst.
  apply (accepts_lits "SNIPSTART" (Regex.Class JS.isSpace)) in H2.
  destruct H2 as [w' [-> Hc]].
  inversion Hc as [c a Hs | | | |]; subst.
  exists a. split; [reflexivity | exact Hs].
Qed.

Lemma string_snoc (s : string) :
  s <> EmptyString -> exists u c, s = (u ++ String c "")%string.
Proof.
  induction s as [|x s IH]; intros H; [now elim H|].
  destruct s as [|y s].
  - exists EmptyString, x. reflexivity.
  - destruct IH as [u [c Hu]]; [discriminate|].
    exists (String x u), c. simpl. rewrite <- Hu. reflexivity.
Qed.

Lemma isWord_idChar (c : ascii) : JS.isWord c = true -> idChar c = true.
Proof. unfold idChar. intros ->. reflexivity. Qed.

(** One or more groups [\w+-\w+]: a word, a hyphen, then id characters
    the last of which is a word character. *)
Lemma accepts_groups (w : string) :
  accepts (Regex.Plus (Regex.Seq word (Regex.Seq (Regex.lit "-") word))) w ->
  exists a rest u c,
    w = (a ++ "-" ++ rest)%string
    /\ a <> EmptyString /\ allChars JS.isWord a = true
    /\ allChars idChar rest = true
    /\ rest = (u ++ String c "")%string /\ JS.isWord c = true.
Proof.
  intros H.
  remember (Regex.Plus (Regex.Seq word (Regex.Seq (Regex.lit "-") word)))
    as r eqn:Hr.
  assert (Hgroup : forall g,
             accepts (Regex.Seq word (Regex.Seq (Regex.lit "-") word)) g ->
             exists a b, g = (a ++ "-" ++ b)%string
                         /\ (a <> EmptyString /\ allChars JS.isWord a = true)
                         /\ (b <> EmptyString /\ allChars JS.isWord b = true)).
  { intros g Hg.
    inversion Hg as [| r1 r2 a w' Ha Hs | | |]; subst.
    inversion Hs as [| r1 r2 h b Hl Hb | | |]; subst.
    apply accepts_lit in Hl. subst h.
    apply accepts_word in Ha. apply accepts_word in Hb.
    exists a, b. split; [reflexivity | auto]. }
  induction H as [| | r0 w H _ | r0 w1 w2 H1 _ H2 IH2 |]; try discriminate;
    injection Hr as ->.
  - destruct (Hgroup _ H) as [a [b [-> [[Ha1 Ha2] [Hb1 Hb2]]]]].
    destruct (string_snoc b Hb1) as [u [c Hu]].
    exists a, b, u, c. repeat split; auto.
    + apply (allChars_weaken JS.isWord); [apply isWord_idChar | exact Hb2].
    + rewrite Hu, allChars_append in Hb2.
      apply andb_true_iff in Hb2 as [_ Hc]. simpl in Hc.
      now rewrite andb_true_r in Hc.
  - destruct (Hgroup _ H1) as [a [b [-> [[Ha1 Ha2] [Hb1 Hb2]]]]].
    destruct (IH2 eq_refl)
      as [a2 [rest2 [u2 [c2 [-> [Ha3 [Ha4 [Hr2 [Hu2 Hc2]]]]]]]]].
    exists a, (b ++ a2 ++ "-" ++ rest2)%string,
           (b ++ a2 ++ "-" ++ u2)%string, c2.
    repeat split; auto.
    + rewrite !append_assoc. reflexivity.
    + rewrite !allChars_append.
      rewrite (allChars_weaken JS.isWord idChar b isWord_idChar Hb2).
      rewrite (allChars_weaken JS.isWord idChar a2 isWord_idChar Ha4).
      rewrite Hr2. reflexivity.
    + rewrite Hu2, !append_assoc. reflexivity.
Qed.

Lemma idChar_not_space (c : ascii) :
  idChar c = true -> JS.isSpace c = false.
Proof.
  destruct c as [[] [] [] [] [] [] [] []]; vm_compute; intros H;
    first [reflexivity | discriminate].
Qed.

Lemma trimEnd_no_space (s : string) :
  allChars (fun c => negb (JS.isSpace c)) s = true -> JS.trimEnd s = s.
Proof.
  induction s as [|c s IH]; simpl; intros H; [reflexivity|].
  apply andb_true_iff in H as [Hc Hs]. apply negb_true_iff in Hc.
  rewrite (IH Hs), Hc. destruct s; reflexivity.
Qed.

Lemma trim_no_space (s : string) :
  allChars (fun c => negb (JS.isSpace c)) s = true -> JS.trim s = s.
Proof.
  intros H. unfold JS.trim.
  assert (Hs : JS.trimStart s = s).
  { destruct s as [|c s]; [reflexivity|]. simpl in *.
    apply andb_true_iff in H as [Hc _]. apply negb_true_iff in Hc.
    now rewrite Hc. }
  rewrite Hs. apply trimEnd_no_space. exact H.
Qed.

(** What a successful [extractID] tells about the line and the id. *)
Lemma extractID_inv (line id : string) :
  extractID line = Some id ->
  (exists pre c post,
      line = (pre ++ "SNIPSTART" ++ String c (id ++ post))%string
      /\ JS.isSpace c = true)
  /\ allChars idChar id = true
  /\ JS.includes id "-" = true
  /\ (exists u c1 c2,
         id = (u ++ String c1 (String c2 ""))%string
         /\ JS.isWord c1 = true /\ JS.isWord c2 = true).
Proof.
  unfold extractID, Regex.firstMatch. intros H.
  destruct (firstMatchFrom_inv _ _ _ _ _ _ _ H) as [j [p [Hn [Hlb Hm]]]].
  simpl in Hlb.
  destruct (matchAt_sound _ _ _ Hm) as [Hacc [post Hp]].
  destruct (positions_nth _ _ _ _ Hn) as [prep [Hline Hlen]].
  split; [|clear Hlb Hn].
  - unfold Regex.lookbehindAt in Hlb.
    destruct (j <? 10)%nat; [discriminate|].
    destruct (nth_error (Regex.positions None line) (j - 10)) as [q|] eqn:Hq;
      [|discriminate].
    destruct (Regex.rmatch idLookbehind _ q _) as [u|] eqn:Hr; [|discriminate].
    destruct (rmatch_sound _ _ _ _ _ Hr) as [w [q' [Hw [Hsq Hk]]]].
    destruct (String.length (snd q') =? String.length (snd p))%nat eqn:Hl;
      [|discriminate].
    apply Nat.eqb_eq in Hl.
    destruct (positions_nth _ _ _ _ Hq) as [preq [Hline' _]].
    destruct (accepts_idLookbehind _ Hw) as [c [-> Hc]].
    rewrite Hsq in Hline'.
    assert (Hsame : snd q' = snd p).
    { rewrite <- append_assoc in Hline'.
      rewrite Hline in Hline' at 1.
      now destruct (same_length_suffix _ _ _ _ Hline' (eq_sym Hl))
        as [_ ->]. }
    exists preq, c, post. split; [|exact Hc].
    rewrite Hline', Hsame, Hp, !append_assoc. reflexivity.
  - unfold idBody in Hacc.
    inversion Hacc as [| r1 r2 g t Hg Ht | | |]; subst.
    destruct (accepts_groups _ Hg)
      as [a [rest [u [c [-> [Ha1 [Ha2 [Hrest [Hu Hc]]]]]]]]].
    destruct (accepts_word _ Ht) as [Ht1 Ht2].
    split; [|split].
    + rewrite !allChars_append.
      rewrite (allChars_weaken JS.isWord idChar a isWord_idChar Ha2).
      rewrite Hrest.
      rewrite (allChars_weaken JS.isWord idChar t isWord_idChar Ht2).
      reflexivity.
    + rewrite !append_assoc. apply (includes_append a "-").
    + destruct (string_snoc t Ht1) as [t' [c2 Ht']].
      assert (Hc2 : JS.isWord c2 = true).
      { rewrite Ht', allChars_append in Ht2.
        apply andb_true_iff in Ht2 as [_ Hx]. simpl in Hx.
        now rewrite andb_true_r in Hx. }
      destruct t' as [|x t'].
      * exists (a ++ "-" ++ u)%string, c, c2.
        split; [|auto]. rewrite Hu, Ht', !append_assoc. reflexivity.
      * destruct (string_snoc (String x t')) as [t'' [c1 Ht'']];
          [discriminate|].
        assert (Hc1 : JS.isWord c1 = true).
        { rewrite Ht', Ht'', !allChars_append in Ht2.
          apply andb_true_iff in Ht2 as [Hx _].
          apply andb_true_iff in Hx as [_ Hx]. simpl in Hx.
          now rewrite andb_true_r in Hx. }
        exists ((a ++ "-" ++ rest) ++ t'')%string, c1, c2.
        split; [|auto]. rewrite Ht', Ht'', !append_assoc. reflexivity.
Qed.

(** X5.  An id is found only right after the keyword SNIPSTART and one white
    space character, whatever marker the line carries, and it is made of
    word characters and hyphens, with at least one hyphen and two word
    characters at its end: a final segment of one character is never part
    of the id. *)
Theorem extractID_shape (line id : string) :
  extractID line = Some id ->
  (exists pre c post,
      line = (pre ++ "SNIPSTART" ++ String c (id ++ post))%string
      /\ JS.isSpace c = true)
  /\ allChars idChar id = true
  /\ JS.includes id "-" = true
  /\ (exists u c1 c2,
         id = (u ++ String c1 (String c2 ""))%string
         /\ JS.isWord c1 = true /\ JS.isWord c2 = true).
Proof. apply extractID_inv. Qed.

Lemma extractID_shape_witness :
  (exists pre c post,
      "<!--START SNIPSTART my-id-12-->"
      = (pre ++ "SNIPSTART" ++ String c ("my-id-12" ++ post))%string
      /\ JS.isSpace c = true)
  /\ allChars idChar "my-id-12" = true
  /\ JS.includes "my-id-12" "-" = true
  /\ (exists u c1 c2,
         "my-id-12" = (u ++ String c1 (String c2 ""))%string
         /\ JS.isWord c1 = true /\ JS.isWord c2 = true).
Proof.
  exact (extractID_shape "<!--START SNIPSTART my-id-12-->" "my-id-12"
           eq_refl).
Defined.

(** X6.  The [trim] that [extractSnippets] applies to an extracted id changes
    nothing: an id holds no white space, so the id stored in a snippet is
    the very string [getSplicedFile] compares it with. *)
Theorem extractID_trim_noop (line id : string) :
  extractID line = Some id -> JS.trim id = id.
Proof.
  intros H. destruct (extractID_inv _ _ H) as [_ [Hall _]].
  apply trim_no_space.
  apply (allChars_weaken idChar); [|exact Hall].
  intros c Hc. now rewrite (idChar_not_space c Hc).
Qed.

Lemma extractID_trim_noop_witness : JS.trim "ab-cd" = "ab-cd".
Proof.
  exact (extractID_trim_noop "// @@@START SNIPSTART ab-cd" "ab-cd" eq_refl).
Defined.

(** X7.  A line that does not contain the keyword SNIPSTART carries no id:
    [extractID] throws on it, even when the id is written right after the
    marker. *)
Theorem extractID_needs_keyword (line : string) :
  JS.includes line "SNIPSTART" = false ->
  extractID_or_throw line = Throw TypeError_null_index.
Proof.
  intros H. unfold extractID_or_throw.
  destruct (extractID line) as [id|] eqn:Hid; [|reflexivity].
  destruct (extractID_inv _ _ Hid) as [[pre [c [post [Hline _]]]] _].
  rewrite Hline, includes_append in H. discriminate.
Qed.

Lemma extractID_needs_keyword_witness :
  extractID_or_throw "<!--START my-id-12-->" = Throw TypeError_null_index.
Proof.
  exact (extractID_needs_keyword "<!--START my-id-12-->" eq_refl).
Defined.

(** ** [split] and [join], [determineExtension], [buildPath] *)

Lemma split_not_nil (sep : ascii) (s : string) : JS.split sep s <> [].
Proof.
  destruct s as [|c s]; simpl; [discriminate|].
  destruct (Ascii.eqb c sep); [discriminate|].
  destruct (JS.split sep s); discriminate.
Qed.

Lemma join_split (sep : ascii) (s : string) :
  JS.join (String sep "") (JS.split sep s) = s.
Proof.
  induction s as [|c s IH]; [reflexivity|].
  simpl. destruct (Ascii.eqb c sep) eqn:Hc.
  - apply Ascii.eqb_eq in Hc. subst c.
    pose proof (split_not_nil sep s) as Hne.
    destruct (JS.split sep s) as [|h t]; [now elim Hne|].
    unfold JS.join in *. rewrite <- IH. reflexivity.
  - pose proof (split_not_nil sep s) as Hne.
    destruct (JS.split sep s) as [|h t]; [now elim Hne|].
    unfold JS.join in *. rewrite <- IH.
    destruct t; reflexivity.
Qed.

Lemma split_lacks (sep : ascii) (s : string) :
  Forall (fun x => lacks sep x = true) (JS.split sep s).
Proof.
  induction s as [|c s IH]; simpl.
  - repeat constructor.
  - destruct (Ascii.eqb c sep) eqn:Hc.
    + constructor; [reflexivity | exact IH].
    + destruct (JS.split sep s) as [|h t].
      * repeat constructor. unfold lacks. simpl. now rewrite Hc.
      * inversion IH; subst. constructor; [|assumption].
        unfold lacks in *. simpl. now rewrite Hc.
Qed.

Lemma split_lacking (sep : ascii) (a : string) :
  lacks sep a = true -> JS.split sep a = [a].
Proof.
  unfold lacks. induction a as [|c a IH]; simpl; intros H; [reflexivity|].
  apply andb_true_iff in H as [Hc Ha]. apply negb_true_iff in Hc.
  rewrite Hc, (IH Ha). reflexivity.
Qed.

Lemma split_at_first (sep : ascii) (a b : string) :
  lacks sep a = true ->
  JS.split sep (a ++ String sep b) = a :: JS.split sep b.
Proof.
  unfold lacks. induction a as [|c a IH]; simpl; intros H.
  - rewrite Ascii.eqb_refl. reflexivity.
  - apply andb_true_iff in H as [Hc Ha]. apply negb_true_iff in Hc.
    rewrite Hc, (IH Ha). reflexivity.
Qed.

Lemma join_snoc (sep x : string) (l : list string) :
  l <> [] -> JS.join sep (l ++ [x]) = (JS.join sep l ++ sep ++ x)%string.
Proof.
  unfold JS.join. induction l as [|h t IH]; intros Hne; [now elim Hne|].
  destruct t as [|h' t].
  - reflexivity.
  - change ((h :: h' :: t) ++ [x]) with (h :: (h' :: t) ++ [x]).
    cbn [String.concat app]. cbn [String.concat app] in IH.
    rewrite IH by discriminate. rewrite !append_assoc. reflexivity.
Qed.

(** X8.  [determineExtension] returns the longest suffix of the path that holds
    no dot: what follows the last dot, or the whole path when it has no
    dot at all. *)
Theorem determineExtension_longest_dotless_suffix (path : string) :
  exists pre,
    path = (pre ++ determineExtension path)%string
    /\ lacks "." (determineExtension path) = true
    /\ (pre = EmptyString \/ exists b, pre = (b ++ ".")%string).
Proof.
  unfold determineExtension.
  pose proof (split_not_nil "." path) as Hne.
  pose proof (join_split "." path) as Hjoin.
  pose proof (split_lacks "." path) as Hall.
  remember (JS.split "." path) as l eqn:Hl. clear Hl.
  pose proof (app_removelast_last EmptyString Hne) as Hsnoc.
  remember (last l EmptyString) as ext eqn:He. clear He.
  remember (removelast l) as init eqn:Hi. clear Hi. subst l.
  apply Forall_app in Hall as [_ Hext]. apply Forall_inv in Hext.
  destruct init as [|h t].
  - exists EmptyString. simpl in Hjoin. auto.
  - rewrite join_snoc in Hjoin by discriminate.
    exists (JS.join "." (h :: t) ++ ".")%string.
    split; [|split; [assumption | right; eauto]].
    rewrite <- Hjoin, append_assoc. reflexivity.
Qed.

Lemma buildPath_of_segments (s : Snippet.t) (root sub : string) :
  lacks "/" root = true ->
  FilePath.directory (Snippet.filePath s) = (root ++ "/" ++ sub)%string ->
  Snippet.buildPath s
  = (sub ++ "/" ++ FilePath.name (Snippet.filePath s))%string.
Proof.
  intros Hroot Hdir. unfold Snippet.buildPath. rewrite Hdir.
  change (root ++ "/" ++ sub)%string with (root ++ String "/" sub)%string.
  rewrite (split_at_first "/" root sub Hroot). cbn [JS.slice1 tl].
  rewrite join_snoc by apply split_not_nil.
  rewrite join_split. reflexivity.
Qed.

(** X9.  The path written into the source link is the directory without its
    first segment (the root folder of the unpacked archive), kept verbatim,
    then the file name; the URL ends with the same path. *)
Theorem buildPath_drops_first_segment (s : Snippet.t) (root sub : string) :
  lacks "/" root = true ->
  FilePath.directory (Snippet.filePath s) = (root ++ "/" ++ sub)%string ->
  Snippet.buildPath s
  = (sub ++ "/" ++ FilePath.name (Snippet.filePath s))%string
  /\ Snippet.buildURL s
     = ("https://github.com/" ++ Snippet.owner s ++ "/" ++ Snippet.repo s
        ++ "/blob/" ++ refOrMaster (Snippet.ref s) ++ "/" ++ sub ++ "/"
        ++ FilePath.name (Snippet.filePath s))%string.
Proof.
  intros Hroot Hdir.
  pose proof (buildPath_of_segments s root sub Hroot Hdir) as Hp.
  split; [exact Hp|]. rewrite buildURL_eq, Hp. reflexivity.
Qed.

Lemma buildPath_drops_first_segment_witness :
  Snippet.buildPath
    (Snippet.mk "ab-cd" "go" "acme" "widgets" (Some "v2")
       (FilePath.mk "bar.go" "widgets-v2/pkg/foo" true) [])
  = "pkg/foo/bar.go"
  /\ Snippet.buildURL
       (Snippet.mk "ab-cd" "go" "acme" "widgets" (Some "v2")
          (FilePath.mk "bar.go" "widgets-v2/pkg/foo" true) [])
     = "https://github.com/acme/widgets/blob/v2/pkg/foo/bar.go".
Proof.
  exact (buildPath_drops_first_segment
           (Snippet.mk "ab-cd" "go" "acme" "widgets" (Some "v2")
              (FilePath.mk "bar.go" "widgets-v2/pkg/foo" true) [])
           "widgets-v2" "pkg/foo" eq_refl eq_refl).
Defined.

(** X10.  A directory of a single segment is dropped whole: a file at the root of
    the archive is linked by its bare name. *)
Theorem buildPath_single_segment (s : Snippet.t) :
  lacks "/" (FilePath.directory (Snippet.filePath s)) = true ->
  Snippet.buildPath s = FilePath.name (Snippet.filePath s)
  /\ Snippet.buildURL s
     = ("https://github.com/" ++ Snippet.owner s ++ "/" ++ Snippet.repo s
        ++ "/blob/" ++ refOrMaster (Snippet.ref s) ++ "/"
        ++ FilePath.name (Snippet.filePath s))%string.
Proof.
  intros Hdir.
  assert (Hp : Snippet.buildPath s = FilePath.name (Snippet.filePath s)).
  { unfold Snippet.buildPath. rewrite (split_lacking "/" _ Hdir). reflexivity. }
  split; [exact Hp|]. rewrite buildURL_eq, Hp. reflexivity.
Qed.

Lemma buildPath_single_segment_witness :
  Snippet.buildPath
    (Snippet.mk "ab-cd" "md" "acme" "widgets" None
       (FilePath.mk "README.md" "widgets-main" true) [])
  = "README.md"
  /\ Snippet.buildURL
       (Snippet.mk "ab-cd" "md" "acme" "widgets" None
          (FilePath.mk "README.md" "widgets-main" true) [])
     = "https://github.com/acme/widgets/blob/master/README.md".
Proof.
  exact (buildPath_single_segment
           (Snippet.mk "ab-cd" "md" "acme" "widgets" None
              (FilePath.mk "README.md" "widgets-main" true) [])
           eq_refl).
Defined.

(** ** The extractor on arbitrary source files *)

Lemma pushLine_headers (snips snips' : list Snippet.t) (i : nat)
    (line : string) :
  pushLine snips i line = Ok snips' ->
  map headerOf snips' = map headerOf snips.
Proof.
  revert i snips'. induction snips as [|sn snips IH]; intros i snips' H.
  - discriminate.
  - destruct i as [|i]; simpl in H.
    + injection H as <-. reflexivity.
    + destruct (pushLine snips i line) as [rest|] eqn:Hp; [|discriminate].
      simpl in H. injection H as <-. simpl. now rewrite (IH _ _ Hp).
Qed.

Lemma pushLine_bodies (Q : string -> Prop) (snips snips' : list Snippet.t)
    (i : nat) (line : string) :
  Q line ->
  Forall (fun sn => Forall Q (Snippet.lines sn)) snips ->
  pushLine snips i line = Ok snips' ->
  Forall (fun sn => Forall Q (Snippet.lines sn)) snips'.
Proof.
  intros Hq. revert i snips'.
  induction snips as [|sn snips IH]; intros i snips' Hall H.
  - discriminate.
  - inversion Hall as [|x y Hsn Hrest]; subst.
    destruct i as [|i]; simpl in H.
    + injection H as <-. constructor; [|exact Hrest].
      simpl. apply Forall_app. auto.
    + destruct (pushLine snips i line) as [rest|] eqn:Hp; [|discriminate].
      simpl in H. injection H as <-. constructor; [exact Hsn|].
      eapply IH; eauto.
Qed.

Section ExtractInvariants.

Variables (ext owner repo : string) (ref : option string)
          (item : FilePath.t).

Local Notation "'xLine'" := (extractLine ext owner repo ref item).
Local Notation "'xLines'" := (extractLines ext owner repo ref item).
Local Notation "'opened'" :=
  (fun l => Snippet.new (idOfLine l) ext owner repo ref item).

Lemma extractLine_headers (st st' : ExtractState) (line : string) :
  xLine st line = Ok st' ->
  map headerOf (fileSnips st')
  = map headerOf (fileSnips st)
    ++ (if JS.includes line readStart then [opened line] else []).
Proof.
  unfold extractLine, extractID_or_throw, idOfLine. intros H.
  set (st1 := if JS.includes line readEnd
              then mkExtract false (S (fileSnipsCount st)) (fileSnips st)
              else st) in H.
  assert (H1 : fileSnips st1 = fileSnips st)
    by (subst st1; destruct (JS.includes line readEnd); reflexivity).
  destruct (capture st1).
  - destruct (pushLine (fileSnips st1) (fileSnipsCount st1) line)
      as [snips|] eqn:Hp; [|discriminate].
    apply pushLine_headers in Hp. rewrite H1 in Hp.
    simpl in H. destruct (JS.includes line readStart).
    + destruct (extractID line) as [id|]; [|discriminate].
      simpl in H. injection H as <-. simpl.
      rewrite map_app, Hp. reflexivity.
    + injection H as <-. simpl. rewrite app_nil_r. exact Hp.
  - simpl in H. destruct (JS.includes line readStart).
    + destruct (extractID line) as [id|]; [|discriminate].
      simpl in H. injection H as <-. simpl.
      rewrite map_app, H1. reflexivity.
    + injection H as <-. rewrite app_nil_r, H1. reflexivity.
Qed.

Lemma extractLines_headers (lines : list string) :
  forall st st',
    xLines lines st = Ok st' ->
    map headerOf (fileSnips st')
    = map headerOf (fileSnips st)
      ++ map opened (filter (fun l => JS.includes l readStart) lines).
Proof.
  induction lines as [|l lines IH]; intros st st' H.
  - simpl in H. injection H as <-. simpl. now rewrite app_nil_r.
  - rewrite extractLines_cons in H.
    destruct (xLine st l) as [st1|] eqn:H1; [|discriminate].
    rewrite bind_ok in H.
    rewrite (IH _ _ H), (extractLine_headers _ _ _ H1).
    simpl. destruct (JS.includes l readStart); simpl;
      rewrite <- app_assoc; reflexivity.
Qed.

Lemma extractLine_bodies (Q : string -> Prop) (st st' : ExtractState)
    (line : string) :
  (JS.includes line readEnd = false -> Q line) ->
  Forall (fun sn => Forall Q (Snippet.lines sn)) (fileSnips st) ->
  xLine st line = Ok st' ->
  Forall (fun sn => Forall Q (Snippet.lines sn)) (fileSnips st').
Proof.
  unfold extractLine, extractID_or_throw. intros Hq Hall H.
  destruct (JS.includes line readEnd) eqn:He.
  - cbn [capture] in H. rewrite bind_ok in H. cbn [fileSnips] in H.
    destruct (JS.includes line readStart).
    + destruct (extractID line) as [id|]; [|discriminate].
      simpl in H. injection H as <-. simpl.
      apply Forall_app. split; [exact Hall|]. repeat constructor.
    + injection H as <-. exact Hall.
  - destruct (capture st).
    + destruct (pushLine (fileSnips st) (fileSnipsCount st) line)
        as [snips|] eqn:Hp; [|discriminate].
      pose proof (pushLine_bodies Q _ _ _ _ (Hq eq_refl) Hall Hp) as Hs.
      simpl in H. destruct (JS.includes line readStart).
      * destruct (extractID line) as [id|]; [|discriminate].
        simpl in H. injection H as <-. simpl.
        apply Forall_app. split; [exact Hs|]. repeat constructor.
      * injection H as <-. exact Hs.
    + simpl in H. destruct (JS.includes line readStart).
      * destruct (extractID line) as [id|]; [|discriminate].
        simpl in H. injection H as <-. simpl.
        apply Forall_app. split; [exact Hall|]. repeat constructor.
      * injection H as <-. exact Hall.
Qed.

Lemma extractLines_bodies (Q : string -> Prop) (lines : list string) :
  (forall l, In l lines -> JS.includes l readEnd = false -> Q l) ->
  forall st st',
    Forall (fun sn => Forall Q (Snippet.lines sn)) (fileSnips st) ->
    xLines lines st = Ok st' ->
    Forall (fun sn => Forall Q (Snippet.lines sn)) (fileSnips st').
Proof.
  induction lines as [|l lines IH]; intros Hq st st' Hall H.
  - simpl in H. injection H as <-. exact Hall.
  - rewrite extractLines_cons in H.
    destruct (xLine st l) as [st1|] eqn:H1; [|discriminate].
    rewrite bind_ok in H.
    apply (IH (fun x Hx => Hq x (or_intror Hx)) st1 st'); [|exact H].
    apply (extractLine_bodies Q st st1 l); auto.
    apply Hq. now left.
Qed.

(** Without a capture-start line nothing is captured and nothing is read
    from the snippet array, however many capture-end lines there are. *)
Lemma extractLines_no_start (lines : list string) :
  forallb (fun l => negb (JS.includes l readStart)) lines = true ->
  forall n, exists m,
    xLines lines (mkExtract false n []) = Ok (mkExtract false m []).
Proof.
  induction lines as [|l lines IH]; intros Hall n.
  - exists n. reflexivity.
  - simpl in Hall. apply andb_true_iff in Hall as [Hl Hall].
    apply negb_true_iff in Hl.
    rewrite extractLines_cons. unfold extractLine at 1. rewrite Hl.
    destruct (JS.includes l readEnd); cbn [capture bind]; apply IH; exact Hall.
Qed.

End ExtractInvariants.

(** X11.  Whatever the file, when extraction returns it returns exactly one
    snippet per line that contains the capture-start marker, in file
    order, each with the id of its line and the extension, owner,
    repository, ref and path of the file. *)
Theorem extractFile_one_snippet_per_start (owner repo : string)
    (ref : option string) (item : FilePath.t) (lines : list string)
    (snips : list Snippet.t) :
  extractFile owner repo ref item lines = Ok snips ->
  map headerOf snips
  = map (fun l =>
           Snippet.new (idOfLine l)
             (determineExtension (FilePath.name item)) owner repo ref item)
        (filter (fun l => JS.includes l readStart) lines).
Proof.
  unfold extractFile. intros H.
  destruct (extractLines _ owner repo ref item lines _) as [st|] eqn:Hx;
    [|discriminate].
  simpl in H. injection H as <-.
  exact (extractLines_headers _ owner repo ref item lines _ _ Hx).
Qed.

Lemma extractFile_one_snippet_per_start_witness :
  map headerOf
    [Snippet.mk "ou-ter" "go" "acme" "widgets" None
       (FilePath.mk "bar.go" "/pkg" true)
       ["a"; "@@@START SNIPSTART in-ner"; "b"];
     Snippet.mk "in-ner" "go" "acme" "widgets" None
       (FilePath.mk "bar.go" "/pkg" true) []]
  = [Snippet.new "ou-ter" "go" "acme" "widgets" None
       (FilePath.mk "bar.go" "/pkg" true);
     Snippet.new "in-ner" "go" "acme" "widgets" None
       (FilePath.mk "bar.go" "/pkg" true)].
Proof.
  exact (extractFile_one_snippet_per_start "acme" "widgets" None
           (FilePath.mk "bar.go" "/pkg" true)
           ["@@@START SNIPSTART ou-ter"; "a"; "@@@START SNIPSTART in-ner";
            "b"; "@@@END"; "c"]
           _ eq_refl).
Defined.

(** X12.  Whatever the file, when extraction returns, every line of every
    snippet body is a line of the file that does not contain the
    capture-end marker: an end marker never leaks into a snippet. *)
Theorem extractFile_bodies_hold_no_end_marker (owner repo : string)
    (ref : option string) (item : FilePath.t) (lines : list string)
    (snips : list Snippet.t) :
  extractFile owner repo ref item lines = Ok snips ->
  Forall (fun sn =>
            Forall (fun l => In l lines /\ JS.includes l readEnd = false)
                   (Snippet.lines sn))
         snips.
Proof.
  unfold extractFile. intros H.
  destruct (extractLines _ owner repo ref item lines _) as [st|] eqn:Hx;
    [|discriminate].
  simpl in H. injection H as <-.
  eapply (extractLines_bodies _ owner repo ref item _ lines); [| |exact Hx].
  - intros l Hin He. auto.
  - constructor.
Qed.

Lemma extractFile_bodies_hold_no_end_marker_witness :
  Forall (fun sn =>
            Forall (fun l =>
                      In l ["@@@START SNIPSTART ou-ter"; "a";
                            "@@@START SNIPSTART in-ner"; "b"; "@@@END"; "c"]
                      /\ JS.includes l readEnd = false)
                   (Snippet.lines sn))
    [Snippet.mk "ou-ter" "go" "acme" "widgets" None
       (FilePath.mk "bar.go" "/pkg" true)
       ["a"; "@@@START SNIPSTART in-ner"; "b"];
     Snippet.mk "in-ner" "go" "acme" "widgets" None
       (FilePath.mk "bar.go" "/pkg" true) []].
Proof.
  exact (extractFile_bodies_hold_no_end_marker "acme" "widgets" None
           (FilePath.mk "bar.go" "/pkg" true)
           ["@@@START SNIPSTART ou-ter"; "a"; "@@@START SNIPSTART in-ner";
            "b"; "@@@END"; "c"]
           _ eq_refl).
Defined.

(** X13.  A source file with no capture-start line yields no snippet and never
    throws, even when it contains capture-end lines. *)
Theorem extractFile_without_start (owner repo : string) (ref : option string)
    (item : FilePath.t) (lines : list string) :
  forallb (fun l => negb (JS.includes l readStart)) lines = true ->
  extractFile owner repo ref item lines = Ok [].
Proof.
  intros Hall. unfold extractFile.
  destruct (extractLines_no_start (determineExtension (FilePath.name item))
              owner repo ref item lines Hall 0) as [m Hm].
  rewrite Hm. reflexivity.
Qed.

Lemma extractFile_without_start_witness :
  extractFile "acme" "widgets" None (FilePath.mk "bar.go" "/pkg" true)
    ["package bar"; "// @@@END"; "func f() {}"; "// @@@END"]
  = Ok [].
Proof.
  exact (extractFile_without_start "acme" "widgets" None
           (FilePath.mk "bar.go" "/pkg" true)
           ["package bar"; "// @@@END"; "func f() {}"; "// @@@END"] eq_refl).
Defined.



(** ** The clear operation on arbitrary target files *)

Lemma clearStep_fold (lines : list string) :
  forall (omit : bool) (acc : list string),
    snd (fold_left clearStep lines (omit, acc)) = acc ++ clearFrom omit lines.
Proof.
  induction lines as [|l lines IH]; intros omit acc.
  - simpl. now rewrite app_nil_r.
  - cbn [fold_left clearFrom]. unfold clearStep at 2.
    destruct (JS.includes l writeEnd), omit, (JS.includes l writeStart);
      cbn [negb]; rewrite IH; cbn [app]; rewrite <- ?app_assoc; reflexivity.
Qed.

Lemma clearLines_clearFrom (lines : list string) :
  clearLines lines = clearFrom false lines.
Proof. unfold clearLines. now rewrite clearStep_fold. Qed.

Lemma clearFrom_idempotent (lines : list string) :
  forall omit, clearFrom omit (clearFrom omit lines) = clearFrom omit lines.
Proof.
  induction lines as [|l lines IH]; intros omit; [reflexivity|].
  cbn [clearFrom].
  destruct (JS.includes l writeEnd) eqn:He, omit,
           (JS.includes l writeStart) eqn:Hs;
    cbn [app clearFrom]; rewrite ?He, ?Hs; cbn [app]; rewrite ?IH;
    reflexivity.
Qed.

(** X15.  Clearing is idempotent on every target file, well formed or not: a
    second clear keeps exactly the lines the first one kept. *)
Theorem getClearedFile_idempotent (file : File.t) :
  getClearedFile (getClearedFile file) = getClearedFile file.
Proof.
  unfold getClearedFile. cbn [File.filename File.lines].
  rewrite !clearLines_clearFrom, clearFrom_idempotent. reflexivity.
Qed.

Lemma clearFrom_no_start (lines : list string) :
  forallb (fun l => negb (JS.includes l writeStart)) lines = true ->
  clearFrom false lines = lines.
Proof.
  induction lines as [|l lines IH]; intros H; [reflexivity|].
  simpl in H. apply andb_true_iff in H as [Hl H].
  apply negb_true_iff in Hl. cbn [clearFrom]. rewrite Hl.
  destruct (JS.includes l writeEnd); cbn [app]; now rewrite (IH H).
Qed.

(** X16.  A target file none of whose lines contains the insertion-start marker
    is returned unchanged, insertion-end lines included. *)
Theorem getClearedFile_without_start (file : File.t) :
  forallb (fun l => negb (JS.includes l writeStart)) (File.lines file) = true ->
  getClearedFile file = file.
Proof.
  intros H. unfold getClearedFile.
  rewrite clearLines_clearFrom, (clearFrom_no_start _ H).
  destruct file; reflexivity.
Qed.

Lemma getClearedFile_without_start_witness :
  getClearedFile (File.mk "notes.md" ["# Notes"; "<!--END-->"; "text"])
  = File.mk "notes.md" ["# Notes"; "<!--END-->"; "text"].
Proof.
  exact (getClearedFile_without_start
           (File.mk "notes.md" ["# Notes"; "<!--END-->"; "text"]) eq_refl).
Defined.

Lemma clearFrom_keeps_ends (lines : list string) :
  forall omit,
    filter (fun l => JS.includes l writeEnd) (clearFrom omit lines)
    = filter (fun l => JS.includes l writeEnd) lines
    /\ (forall x, In x (clearFrom omit lines) -> In x lines)
    /\ length (clearFrom omit lines) <= length lines.
Proof.
  induction lines as [|l lines IH]; intros omit.
  - simpl. auto.
  - cbn [clearFrom].
    set (omit2 := if JS.includes l writeStart then true
                  else if JS.includes l writeEnd then false else omit).
    destruct (IH omit2) as [Hf [Hin Hlen]].
    destruct (JS.includes l writeEnd) eqn:He.
    + cbn [app filter length]. rewrite He, Hf.
      split; [reflexivity|]. split; [|lia].
      intros x [Hx | Hx]; [now left | right; auto].
    + destruct omit; cbn [app filter length]; rewrite ?He, Hf.
      * split; [reflexivity|]. split; [|lia]. intros x Hx. right. auto.
      * split; [reflexivity|]. split; [|lia].
        intros x [Hx | Hx]; [now left | right; auto].
Qed.

(** X17.  On every target file, clearing keeps all the lines that contain the
    insertion-end marker, in their order, and adds nothing: every line of
    the result is a line of the file and the result is no longer than the
    file. *)
Theorem getClearedFile_keeps_end_lines (file : File.t) :
  filter (fun l => JS.includes l writeEnd) (File.lines (getClearedFile file))
  = filter (fun l => JS.includes l writeEnd) (File.lines file)
  /\ (forall x, In x (File.lines (getClearedFile file)) ->
                In x (File.lines file))
  /\ length (File.lines (getClearedFile file)) <= length (File.lines file)
  /\ File.filename (getClearedFile file) = File.filename file.
Proof.
  unfold getClearedFile. cbn [File.lines File.filename].
  rewrite clearLines_clearFrom.
  destruct (clearFrom_keeps_ends (File.lines file) false) as [H1 [H2 H3]].
  auto.
Qed.

Lemma clearFrom_interior (body : list string) :
  forallb (markerFree writeStart writeEnd) body = true ->
  clearFrom true body = [].
Proof.
  induction body as [|l body IH]; intros H; [reflexivity|].
  simpl in H. apply andb_true_iff in H as [Hl H].
  apply markerFree_inv in Hl as [Hs He].
  cbn [clearFrom]. rewrite Hs, He. cbn [app]. exact (IH H).
Qed.

Lemma clearFrom_app_flat (sgs : list seg) (tail : list string) :
  forallb flatInsertionSeg sgs = true ->
  clearFrom false (render sgs ++ tail)
  = render (map (withBody []) sgs) ++ clearFrom false tail.
Proof.
  induction sgs as [|sg sgs IH]; intros Hf; [reflexivity|].
  simpl in Hf. apply andb_true_iff in Hf as [Hsg Hf].
  unfold render. cbn [flat_map map]. fold (render sgs).
  fold (render (map (withBody []) sgs)).
  destruct sg as [l | s body e]; cbn [renderSeg withBody].
  - simpl in Hsg. apply negb_true_iff in Hsg.
    cbn [app clearFrom]. rewrite Hsg.
    destruct (JS.includes l writeEnd); cbn [app]; now rewrite (IH Hf).
  - simpl in Hsg.
    apply andb_true_iff in Hsg as [Hsg He].
    apply andb_true_iff in Hsg as [Hs Hb].
    apply startOnly_inv in Hs as [Hs1 Hs2].
    apply endOnly_inv in He as [He1 He2].
    cbn [app clearFrom]. rewrite Hs1, Hs2. cbn [app]. f_equal.
    rewrite <- !app_assoc.
    assert (Hbody : forall rest,
               clearFrom true (body ++ rest) = clearFrom true rest).
    { clear -Hb. induction body as [|l body IHb]; intros rest; [reflexivity|].
      simpl in Hb. apply andb_true_iff in Hb as [Hl Hb].
      apply markerFree_inv in Hl as [Hs He].
      cbn [app clearFrom]. rewrite Hs, He. cbn [app]. exact (IHb Hb rest). }
    rewrite Hbody. cbn [app clearFrom]. rewrite He1, He2. cbn [app].
    f_equal. exact (IH Hf).
Qed.

(** X18.  An insertion-start line that no insertion-end line follows makes
    clearing drop the rest of the file: after flat regions, an
    insertion-start line followed only by marker-free lines is the last
    line kept. *)
Theorem getClearedFile_unterminated_region (name : string) (sgs : list seg)
    (s : string) (rest : list string) :
  forallb flatInsertionSeg sgs = true ->
  startOnly writeStart writeEnd s = true ->
  forallb (markerFree writeStart writeEnd) rest = true ->
  getClearedFile (File.mk name (render sgs ++ s :: rest))
  = File.mk name (render (map (withBody []) sgs) ++ [s]).
Proof.
  intros Hf Hs Hrest. unfold getClearedFile. cbn [File.lines File.filename].
  rewrite clearLines_clearFrom, (clearFrom_app_flat sgs _ Hf).
  apply startOnly_inv in Hs as [Hs1 Hs2].
  cbn [clearFrom]. rewrite Hs1, Hs2. cbn [app].
  rewrite (clearFrom_interior rest Hrest). reflexivity.
Qed.

Lemma getClearedFile_unterminated_region_witness :
  getClearedFile
    (File.mk "doc.md"
       ["# Title"; "<!--START SNIPSTART ab-cd-->"; "old"; "<!--END-->";
        "<!--START SNIPSTART ef-gh-->"; "## Next section"; "its text"])
  = File.mk "doc.md"
      ["# Title"; "<!--START SNIPSTART ab-cd-->"; "<!--END-->";
       "<!--START SNIPSTART ef-gh-->"].
Proof.
  exact (getClearedFile_unterminated_region "doc.md"
           [Plain "# Title";
            Region "<!--START SNIPSTART ab-cd-->" ["old"] "<!--END-->"]
           "<!--START SNIPSTART ef-gh-->" ["## Next section"; "its text"]
           eq_refl eq_refl eq_refl).
Defined.

(** ** The splice pass when no replacement shortens the file *)

Lemma spliceLoop_skip_run (n fuel : nat) (snippet : Snippet.t)
    (st st' : SpliceState) :
  spliceRun n snippet st = Ok st' -> n < fuel ->
  spliceLoop fuel snippet st = spliceLoop (fuel - n) snippet st'.
Proof.
  intros Hrun Hlt.
  replace fuel with (n + S (fuel - n - 1)) at 1 by lia.
  rewrite (spliceLoop_after_run _ _ _ _ _ Hrun).
  f_equal. lia.
Qed.

Lemma passive_no_start (snippet : Snippet.t) (l : string) :
  JS.includes l writeStart = false -> passive snippet l = true.
Proof. intros H. unfold passive. now rewrite H. Qed.

Lemma passive_markerFree (snippet : Snippet.t) (ls : list string) :
  forallb (markerFree writeStart writeEnd) ls = true ->
  forallb (passive snippet) ls = true.
Proof.
  induction ls as [|l ls IH]; simpl; intros H; [reflexivity|].
  apply andb_true_iff in H as [Hl H].
  apply markerFree_inv in Hl as [Hs _].
  now rewrite (passive_no_start snippet l Hs), (IH H).
Qed.

Lemma skipn_app_le {A : Type} (n : nat) (l1 l2 : list A) :
  n <= length l1 -> skipn n (l1 ++ l2) = skipn n l1 ++ l2.
Proof.
  intros H. rewrite skipn_app.
  replace (n - length l1) with 0 by lia. reflexivity.
Qed.

(** The loop, entered with no region pending at an index inside the part
    [done] already processed, over segments [T] whose matching regions
    all fit: it returns the file with every matching region of [T]
    filled. *)
Lemma spliceLoop_fill (snippet : Snippet.t) :
  markerFreeSnippet snippet = true ->
  forall (T : list seg) (done : list string) (idx start fuel : nat),
    forallb wfInsertionSeg T = true ->
    forallb (fits snippet) T = true ->
    idx <= length done ->
    forallb (passive snippet) (skipn idx done) = true ->
    length (done ++ render (map (fillSeg snippet) T)) - idx < fuel ->
    spliceLoop fuel snippet
      (mkSplice (done ++ render T) idx (S idx) false start)
    = Some (Ok (done ++ render (map (fillSeg snippet) T))).
Proof.
  intros HL. induction T as [|sg T IH];
    intros done idx start fuel Hwf Hfit Hidx Hpass Hfuel.
  - cbn [map render flat_map] in *. rewrite app_nil_r in *.
    apply spliceLoop_passive_rest; assumption.
  - cbn [forallb] in Hwf, Hfit.
    apply andb_true_iff in Hwf as [Hsg Hwf].
    apply andb_true_iff in Hfit as [Hfsg Hfit].
    destruct sg as [l | s body e].
    + (* a line outside every region *)
      change (render (Plain l :: T)) with (l :: render T).
      change (render (map (fillSeg snippet) (Plain l :: T)))
        with (l :: render (map (fillSeg snippet) T)) in *.
      replace (done ++ l :: render T) with ((done ++ [l]) ++ render T)
        by (rewrite <- app_assoc; reflexivity).
      replace (done ++ l :: render (map (fillSeg snippet) T))
        with ((done ++ [l]) ++ render (map (fillSeg snippet) T)) in *
        by (rewrite <- app_assoc; reflexivity).
      apply IH; try assumption.
      * rewrite length_app. lia.
      * rewrite skipn_app_le by exact Hidx.
        rewrite forallb_app, Hpass. cbn [forallb].
        unfold wfInsertionSeg, flatInsertionSeg in Hsg.
        rewrite andb_true_r in Hsg. apply negb_true_iff in Hsg.
        now rewrite (passive_no_start snippet l Hsg).
    + destruct (wf_region_inv [] T s e body) as [_ [_ [Hs [Hid [Hb He]]]]].
      { cbn [app forallb]. now rewrite Hsg, Hwf. }
      rewrite (render_region [] T s e body : render (Region s body e :: T) = _).
      cbn [render flat_map app].
      assert (Hfilled :
                render (map (fillSeg snippet) (Region s body e :: T))
                = s :: (if carriesId snippet s
                        then Snippet.lines snippet else body)
                       ++ e :: render (map (fillSeg snippet) T)).
      { cbn [map fillSeg]. destruct (carriesId snippet s);
          apply (render_region [] (map (fillSeg snippet) T)). }
      rewrite Hfilled in *. clear Hfilled.
      cbn [fits] in Hfsg.
      destruct (carriesId snippet s) eqn:Hc.
      * (* a region that carries the id of the snippet *)
        apply Nat.leb_le in Hfsg.
        assert (Hids : extractID s = Some (Snippet.id snippet)).
        { unfold carriesId in Hc. destruct (extractID s) as [id|];
            [|discriminate].
          apply String.eqb_eq in Hc. now subst. }
        set (L := Snippet.lines snippet) in *.
        rewrite length_app in Hfuel. cbn [length] in Hfuel.
        rewrite length_app in Hfuel. cbn [length] in Hfuel.
        (* walk to the start line *)
        pose proof (spliceRun_passive snippet (skipn idx done)
                      (firstn idx done) (s :: body ++ e :: render T)
                      false start Hpass (or_introl eq_refl)) as Hrun1.
        rewrite app_assoc, firstn_skipn in Hrun1.
        rewrite length_firstn, length_skipn, Nat.min_l in Hrun1
          by exact Hidx.
        replace (idx + (length done - idx)) with (length done) in Hrun1
          by lia.
        rewrite (spliceLoop_skip_run _ _ _ _ _ Hrun1) by lia.
        (* the region itself *)
        pose proof (spliceRun_region snippet done body (render T) s e
                      false start Hs Hids (passive_markerFree _ _ Hb)) as Hrun2.
        assert (Hnoend : forallb (fun l => negb (JS.includes l writeEnd)) body
                         = true).
        { clear -Hb. induction body as [|x body IHb]; [reflexivity|].
          simpl in *. apply andb_true_iff in Hb as [Hx Hb].
          apply markerFree_inv in Hx as [_ Hx]. now rewrite Hx, IHb. }
        specialize (Hrun2 Hnoend He). fold L in Hrun2.
        rewrite (spliceLoop_skip_run _ _ _ _ _ Hrun2) by lia.
        (* the rest, from inside the lines just inserted *)
        replace (length done + length body + 3)
          with (S (length done + length body + 2)) by lia.
        replace (done ++ s :: L ++ e :: render T)
          with ((done ++ s :: L ++ [e]) ++ render T)
          by (rewrite <- app_assoc; cbn [app]; rewrite <- app_assoc;
              reflexivity).
        replace (done ++ s :: L ++ e :: render (map (fillSeg snippet) T))
          with ((done ++ s :: L ++ [e]) ++ render (map (fillSeg snippet) T))
          by (rewrite <- app_assoc; cbn [app]; rewrite <- app_assoc;
              reflexivity).
        apply IH; try assumption.
        -- rewrite length_app. cbn [length]. rewrite length_app.
           cbn [length]. lia.
        -- replace (done ++ s :: L ++ [e]) with ((done ++ [s]) ++ L ++ [e])
             by (rewrite <- app_assoc; reflexivity).
           rewrite skipn_past by (rewrite length_app; cbn [length]; lia).
           apply forallb_skipn. rewrite forallb_app.
           rewrite (passive_markerFree snippet L HL). cbn [forallb].
           apply endOnly_inv in He as [_ He].
           now rewrite (passive_no_start snippet e He).
        -- rewrite length_app. cbn [length]. rewrite !length_app.
           cbn [length]. rewrite length_app. cbn [length]. lia.
      * (* a region for another id *)
        replace (done ++ s :: body ++ e :: render T)
          with ((done ++ s :: body ++ [e]) ++ render T)
          by (rewrite <- app_assoc; cbn [app]; rewrite <- app_assoc;
              reflexivity).
        replace (done ++ s :: body ++ e :: render (map (fillSeg snippet) T))
          with ((done ++ s :: body ++ [e])
                ++ render (map (fillSeg snippet) T)) in *
          by (rewrite <- app_assoc; cbn [app]; rewrite <- app_assoc;
              reflexivity).
        apply IH; try assumption.
        -- rewrite length_app. lia.
        -- rewrite skipn_app_le by exact Hidx.
           rewrite forallb_app, Hpass. cbn [forallb].
           rewrite forallb_app.
           rewrite (passive_markerFree snippet body Hb). cbn [forallb].
           apply endOnly_inv in He as [_ He].
           rewrite (passive_no_start snippet e He).
           apply hasID_inv in Hid as [id Hid].
           unfold passive. unfold carriesId in Hc. rewrite Hid in *.
           rewrite Hc. cbn [negb]. now rewrite orb_true_r.
Qed.

Lemma getSplicedFile_fill (snippet : Snippet.t) (name : string)
    (sgs : list seg) (fuel : nat) :
  markerFreeSnippet snippet = true ->
  forallb wfInsertionSeg sgs = true ->
  forallb (fits snippet) sgs = true ->
  length (render (map (fillSeg snippet) sgs)) < fuel ->
  getSplicedFile fuel snippet (File.mk name (render sgs))
  = Some (Ok (File.mk name (render (map (fillSeg snippet) sgs)))).
Proof.
  intros HL Hwf Hfit Hfuel.
  unfold getSplicedFile, spliceInit. cbn [File.lines File.filename].
  pose proof (spliceLoop_fill snippet HL sgs [] 0 0 fuel Hwf Hfit
                (Nat.le_refl 0) eq_refl) as Hloop.
  cbn [app] in Hloop. rewrite Hloop by lia. reflexivity.
Qed.

(** X19.  When no region that carries the snippet's id has an interior longer
    than the snippet, a single pass replaces the interior of every such
    region and of no other: the first sync into empty regions fills them
    all. *)
Theorem splice_fills_every_fitting_region (snippet : Snippet.t)
    (name : string) (sgs : list seg) (fuel : nat) :
  markerFreeSnippet snippet = true ->
  forallb wfInsertionSeg sgs = true ->
  forallb (fits snippet) sgs = true ->
  length (render (map (fillSeg snippet) sgs)) < fuel ->
  getSplicedFile fuel snippet (File.mk name (render sgs))
  = Some (Ok (File.mk name (render (map (fillSeg snippet) sgs)))).
Proof. apply getSplicedFile_fill. Qed.

Lemma splice_fills_every_fitting_region_witness :
  getSplicedFile 16 (jsSnippet "id-one")
    (File.mk "doc.md"
       ["x"; "<!--START SNIPSTART id-one-->"; "<!--END-->";
        "<!--START SNIPSTART id-two-->"; "keep"; "<!--END-->";
        "<!--START SNIPSTART id-one-->"; "old"; "<!--END-->"; "y"])
  = Some (Ok (File.mk "doc.md"
                ["x"; "<!--START SNIPSTART id-one-->"; "```js"; "new"; "```";
                 "<!--END-->";
                 "<!--START SNIPSTART id-two-->"; "keep"; "<!--END-->";
                 "<!--START SNIPSTART id-one-->"; "```js"; "new"; "```";
                 "<!--END-->"; "y"])).
Proof.
  apply (splice_fills_every_fitting_region (jsSnippet "id-one") "doc.md"
           [Plain "x";
            Region "<!--START SNIPSTART id-one-->" [] "<!--END-->";
            Region "<!--START SNIPSTART id-two-->" ["keep"] "<!--END-->";
            Region "<!--START SNIPSTART id-one-->" ["old"] "<!--END-->";
            Plain "y"] 16); try reflexivity.
  vm_compute. lia.
Defined.

Lemma fillSeg_idempotent (snippet : Snippet.t) (sg : seg) :
  fillSeg snippet (fillSeg snippet sg) = fillSeg snippet sg.
Proof.
  destruct sg as [l | s body e]; [reflexivity|]. cbn [fillSeg].
  destruct (carriesId snippet s) eqn:Hc; cbn [fillSeg]; now rewrite Hc.
Qed.

Lemma fits_fillSeg (snippet : Snippet.t) (sg : seg) :
  fits snippet (fillSeg snippet sg) = true.
Proof.
  destruct sg as [l | s body e]; [reflexivity|]. cbn [fillSeg].
  destruct (carriesId snippet s) eqn:Hc; cbn [fits]; rewrite Hc;
    [apply Nat.leb_refl | reflexivity].
Qed.

Lemma wf_fillSeg (snippet : Snippet.t) (sg : seg) :
  markerFreeSnippet snippet = true ->
  wfInsertionSeg sg = true -> wfInsertionSeg (fillSeg snippet sg) = true.
Proof.
  intros HL Hwf. destruct sg as [l | s body e]; [exact Hwf|]. cbn [fillSeg].
  destruct (carriesId snippet s); [|exact Hwf].
  unfold wfInsertionSeg, flatInsertionSeg in *.
  apply andb_true_iff in Hwf as [Hwf Hid].
  apply andb_true_iff in Hwf as [Hwf He].
  apply andb_true_iff in Hwf as [Hs _].
  unfold markerFreeSnippet in HL. now rewrite Hs, HL, He, Hid.
Qed.

Lemma forallb_map_intro {A : Type} (p : A -> bool) (f : A -> A) (l : list A) :
  (forall x, p x = true -> p (f x) = true) ->
  forallb p l = true -> forallb p (map f l) = true.
Proof.
  intros Hf. induction l as [|x l IH]; simpl; intros H; [reflexivity|].
  apply andb_true_iff in H as [Hx H]. now rewrite (Hf x Hx), (IH H).
Qed.

(** X20.  A file whose regions for the snippet already hold the snippet is a
    fixed point of the pass: running the splice again on the result of a
    pass changes nothing. *)
Theorem splice_again_changes_nothing (snippet : Snippet.t) (name : string)
    (sgs : list seg) (fuel : nat) :
  markerFreeSnippet snippet = true ->
  forallb wfInsertionSeg sgs = true ->
  length (render (map (fillSeg snippet) sgs)) < fuel ->
  getSplicedFile fuel snippet
    (File.mk name (render (map (fillSeg snippet) sgs)))
  = Some (Ok (File.mk name (render (map (fillSeg snippet) sgs)))).
Proof.
  intros HL Hwf Hfuel.
  rewrite getSplicedFile_fill.
  - rewrite map_map.
    rewrite (map_ext _ _ (fillSeg_idempotent snippet)). reflexivity.
  - exact HL.
  - apply forallb_map_intro; [|exact Hwf].
    intros sg. apply wf_fillSeg. exact HL.
  - rewrite forallb_forall. intros sg Hin.
    apply in_map_iff in Hin as [sg0 [<- _]]. apply fits_fillSeg.
  - rewrite map_map.
    rewrite (map_ext _ _ (fillSeg_idempotent snippet)). exact Hfuel.
Qed.

Lemma splice_again_changes_nothing_witness :
  getSplicedFile 12 (jsSnippet "id-one")
    (File.mk "doc.md"
       ["<!--START SNIPSTART id-one-->"; "```js"; "new"; "```"; "<!--END-->";
        "<!--START SNIPSTART id-one-->"; "```js"; "new"; "```"; "<!--END-->"])
  = Some (Ok (File.mk "doc.md"
       ["<!--START SNIPSTART id-one-->"; "```js"; "new"; "```"; "<!--END-->";
        "<!--START SNIPSTART id-one-->"; "```js"; "new"; "```";
        "<!--END-->"])).
Proof.
  apply (splice_again_changes_nothing (jsSnippet "id-one") "doc.md"
           [Region "<!--START SNIPSTART id-one-->"
                   ["o1"; "o2"; "o3"; "o4"] "<!--END-->";
            Region "<!--START SNIPSTART id-one-->" ["stale"] "<!--END-->"]
           12); try reflexivity.
  vm_compute. lia.
Defined.

(** ** [spliceSnippets] with one snippet per id *)

Lemma spliceEach_fill (snippet : Snippet.t) (ds : list (string * list seg)) :
  markerFreeSnippet snippet = true ->
  forallb (fun d => forallb wfInsertionSeg (snd d)) ds = true ->
  forallb (fun d => forallb (fits snippet) (snd d)) ds = true ->
  exists m,
    forall fuel, m <= fuel ->
      spliceEach fuel snippet (map fileOf ds)
      = Some (Ok (map (fun d => fileOf (fst d, map (fillSeg snippet) (snd d)))
                      ds)).
Proof.
  intros HL. induction ds as [|[name sgs] ds IH]; cbn [forallb];
    intros Hwf Hfit.
  - exists 0. reflexivity.
  - apply andb_true_iff in Hwf as [Hwf1 Hwf].
    apply andb_true_iff in Hfit as [Hfit1 Hfit].
    destruct (IH Hwf Hfit) as [m Hm]. cbn [fst snd] in *.
    exists (Nat.max m (S (length (render (map (fillSeg snippet) sgs))))).
    intros fuel Hfuel. cbn [map spliceEach]. unfold fileOf at 1.
    cbn [fst snd].
    rewrite (getSplicedFile_fill snippet name sgs fuel HL Hwf1 Hfit1) by lia.
    rewrite (Hm fuel) by lia. reflexivity.
Qed.

Lemma fits_fillSeg_other (a b : Snippet.t) (sg : seg) :
  Snippet.id a <> Snippet.id b ->
  fits b sg = true -> fits b (fillSeg a sg) = true.
Proof.
  intros Hne Hfit. destruct sg as [l | s body e]; [exact Hfit|].
  cbn [fillSeg]. destruct (carriesId a s) eqn:Ha; [|exact Hfit].
  cbn [fits]. unfold carriesId in *.
  destruct (extractID s) as [id|]; [|discriminate].
  apply String.eqb_eq in Ha. subst id.
  destruct (String.eqb (Snippet.id a) (Snippet.id b)) eqn:Hb; [|reflexivity].
  apply String.eqb_eq in Hb. contradiction.
Qed.

Lemma fillSeg_comm (a b : Snippet.t) (sg : seg) :
  Snippet.id a <> Snippet.id b ->
  fillSeg b (fillSeg a sg) = fillSeg a (fillSeg b sg).
Proof.
  intros Hne. destruct sg as [l | s body e]; [reflexivity|].
  cbn [fillSeg].
  destruct (carriesId a s) eqn:Ha, (carriesId b s) eqn:Hb;
    cbn [fillSeg]; rewrite ?Ha, ?Hb; try reflexivity.
  exfalso. unfold carriesId in *.
  destruct (extractID s) as [id|]; [|discriminate].
  apply String.eqb_eq in Ha, Hb. congruence.
Qed.

Lemma spliceSnippets_fill (snippets : list Snippet.t) :
  forallb markerFreeSnippet snippets = true ->
  NoDup (map Snippet.id snippets) ->
  forall ds : list (string * list seg),
    forallb (fun d => forallb wfInsertionSeg (snd d)) ds = true ->
    forallb (fun sn => forallb (fun d => forallb (fits sn) (snd d)) ds)
            snippets = true ->
    exists m,
      forall fuel, m <= fuel ->
        spliceSnippets fuel snippets (map fileOf ds)
        = Some (Ok (map (fun d => fileOf (fst d, fillAll snippets (snd d)))
                        ds)).
Proof.
  induction snippets as [|sn snippets IH]; intros HL Hnd ds Hwf Hfit.
  - exists 0. intros fuel _. cbn [spliceSnippets fillAll fold_left].
    rewrite <- (map_id (map fileOf ds)) at 1. rewrite !map_map.
    do 2 f_equal.
  - cbn [forallb] in HL, Hfit. cbn [map] in Hnd.
    apply andb_true_iff in HL as [Hsn HL].
    apply andb_true_iff in Hfit as [Hfit1 Hfit].
    inversion Hnd as [|x xs Hnotin Hnd']; subst.
    destruct (spliceEach_fill sn ds Hsn Hwf Hfit1) as [m1 H1].
    set (ds' := map (fun d => (fst d, map (fillSeg sn) (snd d))) ds).
    destruct (IH HL Hnd' ds') as [m2 H2].
    + subst ds'. rewrite forallb_forall in *. intros d' Hin.
      apply in_map_iff in Hin as [d [<- Hd]]. cbn [snd].
      apply forallb_map_intro; [|exact (Hwf d Hd)].
      intros sg. apply wf_fillSeg. exact Hsn.
    + subst ds'. rewrite forallb_forall in *. intros sn' Hin'.
      rewrite forallb_forall. intros d' Hin.
      apply in_map_iff in Hin as [d [<- Hd]]. cbn [snd].
      apply forallb_map_intro.
      * intros sg. apply fits_fillSeg_other.
        intros Heq. apply Hnotin. rewrite Heq. now apply in_map.
      * specialize (Hfit sn' Hin'). rewrite forallb_forall in Hfit.
        exact (Hfit d Hd).
    + exists (Nat.max m1 m2). intros fuel Hfuel. cbn [spliceSnippets].
      rewrite (H1 fuel) by lia.
      replace (map (fun d => fileOf (fst d, map (fillSeg sn) (snd d))) ds)
        with (map fileOf ds') by (subst ds'; now rewrite map_map).
      rewrite (H2 fuel) by lia. subst ds'. rewrite map_map. reflexivity.
Qed.

(** X21.  With one snippet per id, marker-free snippets and regions that all
    fit (as after a clear, when every region is empty), [spliceSnippets]
    returns every target file with each region filled by the snippet that
    carries its id, and regions of unknown ids untouched. *)
Theorem spliceSnippets_fills_all_files (snippets : list Snippet.t)
    (ds : list (string * list seg)) :
  forallb markerFreeSnippet snippets = true ->
  NoDup (map Snippet.id snippets) ->
  forallb (fun d => forallb wfInsertionSeg (snd d)) ds = true ->
  forallb (fun sn => forallb (fun d => forallb (fits sn) (snd d)) ds)
          snippets = true ->
  exists m,
    forall fuel, m <= fuel ->
      spliceSnippets fuel snippets (map fileOf ds)
      = Some (Ok (map (fun d => fileOf (fst d, fillAll snippets (snd d)))
                      ds)).
Proof. intros HL Hnd Hwf Hfit. now apply spliceSnippets_fill. Qed.

Lemma NoDup_two_ids : NoDup ["id-one"; "id-two"].
Proof.
  constructor.
  - intros [H | []]. discriminate.
  - constructor; [intros [] | constructor].
Defined.

Lemma spliceSnippets_fills_all_files_witness :
  exists m,
    forall fuel, m <= fuel ->
      spliceSnippets fuel [jsSnippet "id-one"; jsSnippet "id-two"]
        [File.mk "a.md"
           ["<!--START SNIPSTART id-two-->"; "<!--END-->"; "text";
            "<!--START SNIPSTART id-one-->"; "<!--END-->"];
         File.mk "b.md"
           ["<!--START SNIPSTART id-six-->"; "other"; "<!--END-->"]]
      = Some (Ok [File.mk "a.md"
                    ["<!--START SNIPSTART id-two-->"; "```js"; "new"; "```";
                     "<!--END-->"; "text";
                     "<!--START SNIPSTART id-one-->"; "```js"; "new"; "```";
                     "<!--END-->"];
                  File.mk "b.md"
                    ["<!--START SNIPSTART id-six-->"; "other"; "<!--END-->"]]).
Proof.
  exact (spliceSnippets_fills_all_files
           [jsSnippet "id-one"; jsSnippet "id-two"]
           [("a.md",
             [Region "<!--START SNIPSTART id-two-->" [] "<!--END-->";
              Plain "text";
              Region "<!--START SNIPSTART id-one-->" [] "<!--END-->"]);
            ("b.md",
             [Region "<!--START SNIPSTART id-six-->" ["other"] "<!--END-->"])]
           eq_refl NoDup_two_ids eq_refl eq_refl).
Defined.

(** X22.  Order independence: two snippets with different ids can be spliced in
    either order; under the same conditions both orders return the same
    files. *)
Theorem spliceSnippets_two_ids_commute (a b : Snippet.t)
    (ds : list (string * list seg)) :
  markerFreeSnippet a = true -> markerFreeSnippet b = true ->
  Snippet.id a <> Snippet.id b ->
  forallb (fun d => forallb wfInsertionSeg (snd d)) ds = true ->
  forallb (fun d => forallb (fits a) (snd d)) ds = true ->
  forallb (fun d => forallb (fits b) (snd d)) ds = true ->
  exists m files',
    forall fuel, m <= fuel ->
      spliceSnippets fuel [a; b] (map fileOf ds) = Some (Ok files')
      /\ spliceSnippets fuel [b; a] (map fileOf ds) = Some (Ok files').
Proof.
  intros Ha Hb Hne Hwf Hfa Hfb.
  assert (Hnd : forall x y, Snippet.id x <> Snippet.id y ->
                            NoDup (map Snippet.id [x; y])).
  { intros x y Hxy. constructor.
    - intros [H | []]. now apply Hxy.
    - constructor; [intros [] | constructor]. }
  destruct (spliceSnippets_fill [a; b]) with (ds := ds) as [m1 H1]; auto.
  { cbn [forallb]. now rewrite Ha, Hb. }
  { cbn [forallb]. now rewrite Hfa, Hfb. }
  destruct (spliceSnippets_fill [b; a]) with (ds := ds) as [m2 H2]; auto.
  { cbn [forallb]. now rewrite Ha, Hb. }
  { cbn [forallb]. now rewrite Hfa, Hfb. }
  exists (Nat.max m1 m2).
  exists (map (fun d => fileOf (fst d, fillAll [a; b] (snd d))) ds).
  intros fuel Hfuel. split; [apply H1; lia|].
  rewrite (H2 fuel) by lia. do 2 f_equal.
  apply map_ext. intros d.
  assert (Hcomm : map (fillSeg a) (map (fillSeg b) (snd d))
                  = map (fillSeg b) (map (fillSeg a) (snd d))).
  { rewrite !map_map. apply map_ext. intros sg. symmetry.
    apply fillSeg_comm. exact Hne. }
  unfold fillAll. cbn [fold_left]. rewrite Hcomm. reflexivity.
Qed.

Lemma spliceSnippets_two_ids_commute_witness :
  exists m files',
    forall fuel, m <= fuel ->
      spliceSnippets fuel
        [jsSnippet "id-one"; jsSnippet "id-two"]
        [File.mk "a.md"
           ["<!--START SNIPSTART id-two-->"; "<!--END-->"; "text";
            "<!--START SNIPSTART id-one-->"; "<!--END-->"]]
      = Some (Ok files')
      /\ spliceSnippets fuel
           [jsSnippet "id-two"; jsSnippet "id-one"]
           [File.mk "a.md"
              ["<!--START SNIPSTART id-two-->"; "<!--END-->"; "text";
               "<!--START SNIPSTART id-one-->"; "<!--END-->"]]
         = Some (Ok files').
Proof.
  apply (spliceSnippets_two_ids_commute
           (jsSnippet "id-one") (jsSnippet "id-two")
           [("a.md",
             [Region "<!--START SNIPSTART id-two-->" [] "<!--END-->";
              Plain "text";
              Region "<!--START SNIPSTART id-one-->" [] "<!--END-->"])]);
    try reflexivity.
  discriminate.
Defined.

(** ** The whole run for one origin *)

Lemma extractFile_malformed (owner repo : string) (ref : option string)
    (item : FilePath.t) (pre post : list string) (bad : string) :
  JS.includes bad readStart = true -> extractID bad = None ->
  exists e, extractFile owner repo ref item (pre ++ bad :: post) = Throw e.
Proof.
  intros Hs Hid. unfold extractFile.
  destruct (extractLines_malformed
              (determineExtension (FilePath.name item)) owner repo ref item
              pre post bad (mkExtract false 0 []) Hs Hid) as [e He].
  rewrite He. simpl. eauto.
Qed.

Lemma extractRepo_malformed (owner repo : string) (ref : option string)
    (before after : list (FilePath.t * list string)) (item : FilePath.t)
    (pre post : list string) (bad : string) :
  JS.includes bad readStart = true -> extractID bad = None ->
  exists e,
    extractRepo owner repo ref
      (before ++ (item, pre ++ bad :: post) :: after) = Throw e.
Proof.
  intros Hs Hid. induction before as [|[it ls] before IH].
  - destruct (extractFile_malformed owner repo ref item pre post bad Hs Hid)
      as [e He].
    exists e. cbn [app extractRepo]. rewrite He. reflexivity.
  - destruct IH as [e He]. cbn [app extractRepo].
    destruct (extractFile owner repo ref it ls) as [snips | e'].
    + rewrite bind_ok, He. simpl. eauto.
    + simpl. eauto.
Qed.

(** X23.  One capture-start line without an extractable id, in any file of the
    repository, aborts the whole run: no snippet of any file is kept and
    no target file is spliced, whatever the targets and the fuel. *)
Theorem run_aborts_on_malformed_capture (owner repo : string)
    (ref : option string)
    (before after : list (FilePath.t * list string)) (item : FilePath.t)
    (pre post : list string) (bad : string) :
  JS.includes bad readStart = true -> extractID bad = None ->
  exists e,
    forall fuel link targets,
      run fuel link owner repo ref
        (before ++ (item, pre ++ bad :: post) :: after) targets
      = Some (Throw e).
Proof.
  intros Hs Hid.
  destruct (extractRepo_malformed owner repo ref before after item pre post
              bad Hs Hid) as [e He].
  exists e. intros fuel link targets. unfold run, extractSnippets.
  rewrite He. reflexivity.
Qed.

Lemma run_aborts_on_malformed_capture_witness :
  exists e,
    forall fuel link targets,
      run fuel link "acme" "widgets" None
        [(FilePath.mk "a.go" "/pkg" true,
          ["// @@@START SNIPSTART ab-cd"; "x"; "// @@@END"]);
         (FilePath.mk "b.go" "/pkg" true,
          ["package b"; "// @@@START ef-gh"; "y"; "// @@@END"])]
        targets
      = Some (Throw e).
Proof.
  exact (run_aborts_on_malformed_capture "acme" "widgets" None
           [(FilePath.mk "a.go" "/pkg" true,
             ["// @@@START SNIPSTART ab-cd"; "x"; "// @@@END"])]
           [] (FilePath.mk "b.go" "/pkg" true)
           ["package b"] ["y"; "// @@@END"] "// @@@START ef-gh"
           eq_refl eq_refl).
Defined.

Lemma extractRepo_paired (owner repo : string) (ref : option string)
    (srcs : list (FilePath.t * list seg)) :
  forallb (fun d => forallb wfCaptureSeg (snd d)) srcs = true ->
  extractRepo owner repo ref (map sourceOf srcs)
  = Ok (snippetsOf owner repo ref srcs).
Proof.
  induction srcs as [|[item sgs] srcs IH]; cbn [forallb]; intros H.
  - reflexivity.
  - apply andb_true_iff in H as [Hsgs H]. cbn [snd] in Hsgs.
    cbn [map sourceOf extractRepo fst snd].
    unfold extractFile.
    rewrite (extractLines_wf_init
               (determineExtension (FilePath.name item)) owner repo ref item
               sgs Hsgs).
    rewrite !bind_ok. cbn [fileSnips]. rewrite (IH H), bind_ok.
    reflexivity.
Qed.

(** X24.  The run end to end: when every source file has flat, properly paired
    capture regions, the formatted snippets carry no insertion marker and
    have different ids, and every region of the well-formed target files
    fits (as after a clear), the run returns each target file with every
    region filled by the formatted snippet that carries its id. *)
Theorem run_fills_target_regions (link : bool) (owner repo : string)
    (ref : option string) (srcs : list (FilePath.t * list seg))
    (ds : list (string * list seg)) :
  let snippets := fmtAll link (snippetsOf owner repo ref srcs) in
  forallb (fun d => forallb wfCaptureSeg (snd d)) srcs = true ->
  forallb markerFreeSnippet snippets = true ->
  NoDup (map Snippet.id snippets) ->
  forallb (fun d => forallb wfInsertionSeg (snd d)) ds = true ->
  forallb (fun sn => forallb (fun d => forallb (fits sn) (snd d)) ds)
          snippets = true ->
  exists m,
    forall fuel, m <= fuel ->
      run fuel link owner repo ref (map sourceOf srcs) (map fileOf ds)
      = Some (Ok (map (fun d => fileOf (fst d, fillAll snippets (snd d)))
                      ds)).
Proof.
  intros snippets Hsrc HL Hnd Hwf Hfit.
  destruct (spliceSnippets_fill snippets HL Hnd ds Hwf Hfit) as [m Hm].
  exists m. intros fuel Hfuel. unfold run, extractSnippets.
  rewrite (extractRepo_paired owner repo ref srcs Hsrc), bind_ok.
  apply Hm. exact Hfuel.
Qed.

Lemma NoDup_one_id : NoDup ["ab-cd"].
Proof. constructor; [intros [] | constructor]. Defined.

Lemma run_fills_target_regions_witness :
  exists m,
    forall fuel, m <= fuel ->
      run fuel false "acme" "widgets" None
        [(FilePath.mk "bar.go" "widgets-main/pkg" true,
          ["package bar"; "// @@@START SNIPSTART ab-cd"; "x := 1";
           "// @@@END"])]
        [File.mk "doc.md"
           ["# Doc"; "<!--START SNIPSTART ab-cd-->"; "<!--END-->"; "end"]]
      = Some (Ok [File.mk "doc.md"
                    ["# Doc"; "<!--START SNIPSTART ab-cd-->"; "```go";
                     "x := 1"; "```"; "<!--END-->"; "end"]]).
Proof.
  exact (run_fills_target_regions false "acme" "widgets" None
           [(FilePath.mk "bar.go" "widgets-main/pkg" true,
             [Plain "package bar";
              Region "// @@@START SNIPSTART ab-cd" ["x := 1"] "// @@@END"])]
           [("doc.md",
             [Plain "# Doc";
              Region "<!--START SNIPSTART ab-cd-->" [] "<!--END-->";
              Plain "end"])]
           eq_refl eq_refl NoDup_one_id eq_refl eq_refl).
Defined.

(** ** What [writeFiles] writes *)

Lemma split_join (sep : ascii) (l : list string) :
  l <> [] -> Forall (fun x => lacks sep x = true) l ->
  JS.split sep (JS.join (String sep "") l) = l.
Proof.
  induction l as [|x l IH]; intros Hne Hall; [now elim Hne|].
  inversion Hall as [|y ys Hx Hl]; subst.
  destruct l as [|x' l].
  - unfold JS.join. simpl. now apply split_lacking.
  - change (JS.join (String sep "") (x :: x' :: l))
      with (x ++ String sep (JS.join (String sep "") (x' :: l)))%string.
    rewrite (split_at_first sep x _ Hx). f_equal.
    apply IH; [discriminate | exact Hl].
Qed.

(** X25.  Round trip of the written text: for a file with at least one line and
    no line feed inside a line, splitting the written string at line feeds
    gives back the lines, followed by the empty string after the final
    line feed. *)
Theorem fileString_splits_back (file : File.t) :
  File.lines file <> [] ->
  Forall (fun x => lacks "010" x = true) (File.lines file) ->
  JS.split "010" (fileString file) = File.lines file ++ [EmptyString].
Proof.
  intros Hne Hall. unfold fileString.
  replace (JS.join (String "010" "") (File.lines file) ++ String "010" "")%string
    with (JS.join (String "010" "") (File.lines file ++ [EmptyString])).
  - apply split_join.
    + destruct (File.lines file); discriminate.
    + apply Forall_app. split; [exact Hall | repeat constructor].
  - rewrite join_snoc by exact Hne. reflexivity.
Qed.

Lemma fileString_splits_back_witness :
  JS.split "010" (fileString (File.mk "doc.md" ["# Doc"; ""; "text"]))
  = ["# Doc"; ""; "text"; ""].
Proof.
  apply (fileString_splits_back (File.mk "doc.md" ["# Doc"; ""; "text"])).
  - discriminate.
  - repeat constructor.
Defined.

(** ** The splice pass throws only in [extractID] *)

Lemma forallb_firstn {A : Type} (p : A -> bool) (n : nat) (l : list A) :
  forallb p l = true -> forallb p (firstn n l) = true.
Proof.
  revert n. induction l as [|x l IH]; intros [|n] H; simpl in *; auto.
  apply andb_true_iff in H as [Hx H]. now rewrite Hx, (IH n H).
Qed.

Lemma idsExtractable_spliceFile (snippet : Snippet.t) (lines : list string)
    (start end_ : nat) :
  idsExtractable lines = true ->
  idsExtractable (Snippet.lines snippet) = true ->
  idsExtractable (spliceFile start end_ snippet lines) = true.
Proof.
  unfold idsExtractable, spliceFile, JS.splice. intros Hl HL.
  rewrite !forallb_app, HL.
  rewrite (forallb_firstn _ _ _ Hl), (forallb_skipn _ _ _ Hl). reflexivity.
Qed.

Lemma spliceBody_extractable (snippet : Snippet.t) (st : SpliceState)
    (line : string) :
  idsExtractable (s_lines st) = true ->
  idsExtractable (Snippet.lines snippet) = true ->
  nth_error (s_lines st) (s_idx st) = Some line ->
  exists st',
    spliceBody snippet st line = Ok st'
    /\ idsExtractable (s_lines st') = true.
Proof.
  intros Hl HL Hn.
  pose proof (forallb_nth_error _ _ _ _ Hl Hn) as Hline. cbv beta in Hline.
  unfold spliceBody, extractID_or_throw.
  destruct (JS.includes line writeStart) eqn:Hs.
  - cbn [negb orb] in Hline. apply hasID_inv in Hline as [id Hid].
    rewrite Hid. cbn [bind].
    destruct (String.eqb id (Snippet.id snippet)); cbn [bind];
      destruct (JS.includes line writeEnd);
      cbn [lookForStop andb s_lines spliceStart fileLineNumber];
      try destruct (lookForStop st);
      eexists; (split; [reflexivity|]); cbn [s_lines];
      try (apply idsExtractable_spliceFile); assumption.
  - cbn [bind]. destruct (JS.includes line writeEnd && lookForStop st);
      eexists; (split; [reflexivity|]); cbn [s_lines];
      try (apply idsExtractable_spliceFile); assumption.
Qed.

Lemma spliceLoop_extractable (snippet : Snippet.t) (e : exn) :
  idsExtractable (Snippet.lines snippet) = true ->
  forall (fuel : nat) (st : SpliceState),
    idsExtractable (s_lines st) = true ->
    spliceLoop fuel snippet st <> Some (Throw e).
Proof.
  intros HL. induction fuel as [|fuel IH]; intros st Hl; [discriminate|].
  cbn [spliceLoop]. unfold spliceNext.
  destruct (nth_error (s_lines st) (s_idx st)) as [line|] eqn:Hn;
    [|discriminate].
  destruct (spliceBody_extractable snippet st line Hl HL Hn)
    as [st' [Hbody Hl']].
  rewrite Hbody. apply IH. exact Hl'.
Qed.

(** X26.  The splice pass throws only where [extractID] finds no id: when
    every line of the target file and of the snippet that contains the
    insertion-start marker carries an extractable id, the pass never
    throws, whatever the nesting or pairing of the markers and whatever
    the fuel. *)
Theorem splice_never_throws_when_ids_extractable (snippet : Snippet.t)
    (file : File.t) (fuel : nat) (e : exn) :
  idsExtractable (File.lines file) = true ->
  idsExtractable (Snippet.lines snippet) = true ->
  getSplicedFile fuel snippet file <> Some (Throw e).
Proof.
  intros Hl HL. unfold getSplicedFile.
  pose proof (spliceLoop_extractable snippet e HL fuel
                (spliceInit (File.lines file)) Hl) as Hloop.
  destruct (spliceLoop fuel snippet (spliceInit (File.lines file)))
    as [[ls | e'] |]; try discriminate.
  intros H. injection H as ->. now apply Hloop.
Qed.

Lemma splice_never_throws_when_ids_extractable_witness :
  getSplicedFile 20 (jsSnippet "id-one")
    (File.mk "doc.md"
       ["<!--END-->"; "<!--START SNIPSTART id-one-->";
        "<!--START SNIPSTART id-two-->"; "<!--END-->"; "<!--END-->"])
  <> Some (Throw TypeError_null_index).
Proof.
  exact (splice_never_throws_when_ids_extractable (jsSnippet "id-one")
           (File.mk "doc.md"
              ["<!--END-->"; "<!--START SNIPSTART id-one-->";
               "<!--START SNIPSTART id-two-->"; "<!--END-->"; "<!--END-->"])
           20 TypeError_null_index eq_refl eq_refl).
Defined.
